(** * First Wheels fluid-motion controller: motion state machine and
      command encoder

    A shallow embedding of the Arduino sketch that ramps the two motor
    commands of a Sabertooth driver from five buttons, a throttle
    potentiometer and a trim potentiometer.

    Conventions.
    - [int] globals ([motorControl1], [motorControl2], [speedDifference],
      [trimAdjustment]) are integers in [Z].  Lemma [reachable_valid]
      shows that the two commands stay inside [1,127] and [128,255] at every
      tick boundary, so none of the sketch's [int] arithmetic leaves the
      16-bit range.
    - [byte] globals are integers in [Z]; every store of a computed value
      into a [byte] goes through [to_byte] (reduction modulo 256).
    - the software serial port is the list of bytes written so far,
      oldest first.
    - debug printing ([ndebug == 1]), the LED blink and the pin re-arming
      [digitalWrite] calls have no effect on the modelled state and are
      left out; [ndebug] is the constant 0 in the sketch. *)

From Stdlib Require Import ZArith List Bool Ascii Lia ZifyBool.
Import ListNotations.
Open Scope Z_scope.

(** ** Arduino core *)

Module Arduino.

(** Store into a [byte] (unsigned char). *)
Definition to_byte (z : Z) : Z := z mod 256.

(** The core's [abs] macro: [((x)>0?(x):-(x))]. *)
Definition abs (x : Z) : Z := if x >? 0 then x else - x.

(** Modelled from the spec: [map] belongs to the Arduino core and is not
    part of the repository; sections 4.1 and 4.2 describe it as linear
    interpolation.  This is the core's integer formula, with C's
    truncating division. *)
Definition map (x in_min in_max out_min out_max : Z) : Z :=
  Z.quot ((x - in_min) * (out_max - out_min)) (in_max - in_min) + out_min.

(** Character literals stored into a [byte]. *)
Definition chr (c : ascii) : Z := Z.of_nat (nat_of_ascii c).

End Arduino.

Import Arduino.

(** ** Adjustable parameters and constants *)

Definition accelFactor : Z := 2.
Definition decelFactor : Z := 4.
Definition trimSens : Z := 6.
Definition beginnerModeDelay : Z := 15.

Definition deadStop1 : Z := 64.
Definition deadStop2 : Z := 192.

(** ** Work variables *)

Record State : Type := mkState {
  motorControl1 : Z;
  motorControl2 : Z;
  motorByte1 : Z;
  motorByte2 : Z;
  rawSpeed1 : Z;
  rawSpeed2 : Z;
  speedDifference : Z;
  direction1 : Z;
  direction2 : Z;
  buttonPinNumber : Z;
  buttonPressedIndicator : Z;
  trimAdjustment : Z;
  maxFwdSpeed1 : Z;
  maxFwdSpeed2 : Z;
  maxRevSpeed1 : Z;
  maxRevSpeed2 : Z;
  beginnerMode : bool;
  serial : list Z
}.

(** What one pass of [loop] reads from the pins. *)
Record Inputs : Type := mkInputs {
  throttlePot : Z;          (* analogRead(A0) *)
  trimPot : Z;              (* analogRead(A2) *)
  low : Z -> bool           (* digitalRead(pin) == LOW *)
}.

Definition set_motorControl1 (v : Z) (s : State) : State :=
  mkState v (motorControl2 s) (motorByte1 s) (motorByte2 s) (rawSpeed1 s)
    (rawSpeed2 s) (speedDifference s) (direction1 s) (direction2 s)
    (buttonPinNumber s) (buttonPressedIndicator s) (trimAdjustment s)
    (maxFwdSpeed1 s) (maxFwdSpeed2 s) (maxRevSpeed1 s) (maxRevSpeed2 s)
    (beginnerMode s) (serial s).

Definition set_motorControl2 (v : Z) (s : State) : State :=
  mkState (motorControl1 s) v (motorByte1 s) (motorByte2 s) (rawSpeed1 s)
    (rawSpeed2 s) (speedDifference s) (direction1 s) (direction2 s)
    (buttonPinNumber s) (buttonPressedIndicator s) (trimAdjustment s)
    (maxFwdSpeed1 s) (maxFwdSpeed2 s) (maxRevSpeed1 s) (maxRevSpeed2 s)
    (beginnerMode s) (serial s).

Definition set_motorByte1 (v : Z) (s : State) : State :=
  mkState (motorControl1 s) (motorControl2 s) v (motorByte2 s) (rawSpeed1 s)
    (rawSpeed2 s) (speedDifference s) (direction1 s) (direction2 s)
    (buttonPinNumber s) (buttonPressedIndicator s) (trimAdjustment s)
    (maxFwdSpeed1 s) (maxFwdSpeed2 s) (maxRevSpeed1 s) (maxRevSpeed2 s)
    (beginnerMode s) (serial s).

Definition set_motorByte2 (v : Z) (s : State) : State :=
  mkState (motorControl1 s) (motorControl2 s) (motorByte1 s) v (rawSpeed1 s)
    (rawSpeed2 s) (speedDifference s) (direction1 s) (direction2 s)
    (buttonPinNumber s) (buttonPressedIndicator s) (trimAdjustment s)
    (maxFwdSpeed1 s) (maxFwdSpeed2 s) (maxRevSpeed1 s) (maxRevSpeed2 s)
    (beginnerMode s) (serial s).

Definition set_rawSpeed1 (v : Z) (s : State) : State :=
  mkState (motorControl1 s) (motorControl2 s) (motorByte1 s) (motorByte2 s) v
    (rawSpeed2 s) (speedDifference s) (direction1 s) (direction2 s)
    (buttonPinNumber s) (buttonPressedIndicator s) (trimAdjustment s)
    (maxFwdSpeed1 s) (maxFwdSpeed2 s) (maxRevSpeed1 s) (maxRevSpeed2 s)
    (beginnerMode s) (serial s).

Definition set_rawSpeed2 (v : Z) (s : State) : State :=
  mkState (motorControl1 s) (motorControl2 s) (motorByte1 s) (motorByte2 s)
    (rawSpeed1 s) v (speedDifference s) (direction1 s) (direction2 s)
    (buttonPinNumber s) (buttonPressedIndicator s) (trimAdjustment s)
    (maxFwdSpeed1 s) (maxFwdSpeed2 s) (maxRevSpeed1 s) (maxRevSpeed2 s)
    (beginnerMode s) (serial s).

Definition set_speedDifference (v : Z) (s : State) : State :=
  mkState (motorControl1 s) (motorControl2 s) (motorByte1 s) (motorByte2 s)
    (rawSpeed1 s) (rawSpeed2 s) v (direction1 s) (direction2 s)
    (buttonPinNumber s) (buttonPressedIndicator s) (trimAdjustment s)
    (maxFwdSpeed1 s) (maxFwdSpeed2 s) (maxRevSpeed1 s) (maxRevSpeed2 s)
    (beginnerMode s) (serial s).

Definition set_direction1 (v : Z) (s : State) : State :=
  mkState (motorControl1 s) (motorControl2 s) (motorByte1 s) (motorByte2 s)
    (rawSpeed1 s) (rawSpeed2 s) (speedDifference s) v (direction2 s)
    (buttonPinNumber s) (buttonPressedIndicator s) (trimAdjustment s)
    (maxFwdSpeed1 s) (maxFwdSpeed2 s) (maxRevSpeed1 s) (maxRevSpeed2 s)
    (beginnerMode s) (serial s).

Definition set_direction2 (v : Z) (s : State) : State :=
  mkState (motorControl1 s) (motorControl2 s) (motorByte1 s) (motorByte2 s)
    (rawSpeed1 s) (rawSpeed2 s) (speedDifference s) (direction1 s) v
    (buttonPinNumber s) (buttonPressedIndicator s) (trimAdjustment s)
    (maxFwdSpeed1 s) (maxFwdSpeed2 s) (maxRevSpeed1 s) (maxRevSpeed2 s)
    (beginnerMode s) (serial s).

Definition set_buttonPinNumber (v : Z) (s : State) : State :=
  mkState (motorControl1 s) (motorControl2 s) (motorByte1 s) (motorByte2 s)
    (rawSpeed1 s) (rawSpeed2 s) (speedDifference s) (direction1 s)
    (direction2 s) v (buttonPressedIndicator s) (trimAdjustment s)
    (maxFwdSpeed1 s) (maxFwdSpeed2 s) (maxRevSpeed1 s) (maxRevSpeed2 s)
    (beginnerMode s) (serial s).

Definition set_buttonPressedIndicator (v : Z) (s : State) : State :=
  mkState (motorControl1 s) (motorControl2 s) (motorByte1 s) (motorByte2 s)
    (rawSpeed1 s) (rawSpeed2 s) (speedDifference s) (direction1 s)
    (direction2 s) (buttonPinNumber s) v (trimAdjustment s)
    (maxFwdSpeed1 s) (maxFwdSpeed2 s) (maxRevSpeed1 s) (maxRevSpeed2 s)
    (beginnerMode s) (serial s).

Definition set_trimAdjustment (v : Z) (s : State) : State :=
  mkState (motorControl1 s) (motorControl2 s) (motorByte1 s) (motorByte2 s)
    (rawSpeed1 s) (rawSpeed2 s) (speedDifference s) (direction1 s)
    (direction2 s) (buttonPinNumber s) (buttonPressedIndicator s) v
    (maxFwdSpeed1 s) (maxFwdSpeed2 s) (maxRevSpeed1 s) (maxRevSpeed2 s)
    (beginnerMode s) (serial s).

Definition set_maxFwdSpeed1 (v : Z) (s : State) : State :=
  mkState (motorControl1 s) (motorControl2 s) (motorByte1 s) (motorByte2 s)
    (rawSpeed1 s) (rawSpeed2 s) (speedDifference s) (direction1 s)
    (direction2 s) (buttonPinNumber s) (buttonPressedIndicator s)
    (trimAdjustment s) v (maxFwdSpeed2 s) (maxRevSpeed1 s) (maxRevSpeed2 s)
    (beginnerMode s) (serial s).

Definition set_maxFwdSpeed2 (v : Z) (s : State) : State :=
  mkState (motorControl1 s) (motorControl2 s) (motorByte1 s) (motorByte2 s)
    (rawSpeed1 s) (rawSpeed2 s) (speedDifference s) (direction1 s)
    (direction2 s) (buttonPinNumber s) (buttonPressedIndicator s)
    (trimAdjustment s) (maxFwdSpeed1 s) v (maxRevSpeed1 s) (maxRevSpeed2 s)
    (beginnerMode s) (serial s).

Definition set_maxRevSpeed1 (v : Z) (s : State) : State :=
  mkState (motorControl1 s) (motorControl2 s) (motorByte1 s) (motorByte2 s)
    (rawSpeed1 s) (rawSpeed2 s) (speedDifference s) (direction1 s)
    (direction2 s) (buttonPinNumber s) (buttonPressedIndicator s)
    (trimAdjustment s) (maxFwdSpeed1 s) (maxFwdSpeed2 s) v (maxRevSpeed2 s)
    (beginnerMode s) (serial s).

Definition set_maxRevSpeed2 (v : Z) (s : State) : State :=
  mkState (motorControl1 s) (motorControl2 s) (motorByte1 s) (motorByte2 s)
    (rawSpeed1 s) (rawSpeed2 s) (speedDifference s) (direction1 s)
    (direction2 s) (buttonPinNumber s) (buttonPressedIndicator s)
    (trimAdjustment s) (maxFwdSpeed1 s) (maxFwdSpeed2 s) (maxRevSpeed1 s) v
    (beginnerMode s) (serial s).

(** [mySerial.write(b)]. *)
Definition serial_write (b : Z) (s : State) : State :=
  mkState (motorControl1 s) (motorControl2 s) (motorByte1 s) (motorByte2 s)
    (rawSpeed1 s) (rawSpeed2 s) (speedDifference s) (direction1 s)
    (direction2 s) (buttonPinNumber s) (buttonPressedIndicator s)
    (trimAdjustment s) (maxFwdSpeed1 s) (maxFwdSpeed2 s) (maxRevSpeed1 s)
    (maxRevSpeed2 s) (beginnerMode s) (serial s ++ [b]).

(** Sequencing of assignments: [s |> f |> g] runs [f], then [g]. *)
Notation "s |> f" := (f s) (at level 45, left associativity, only parsing).

(** Sequencing of statements: [do s <- e ;; k] runs [e], names the state
    it leaves [s], and goes on with [k]. *)
Definition bind (s : State) (k : State -> State) : State := k s.

Notation "'do' x <- e ;; k" := (bind e (fun x => k))
  (at level 10, x name, e at level 200, k at level 200, only parsing).

(** ** Send Command (CommandEncoder) *)

(** "Ensure that command values are within valid range". *)
Definition clampCommands (s : State) : State :=
  do s <- if motorControl1 s <? 1 then set_motorControl1 1 s else s ;;
  do s <- if motorControl1 s >? 127 then set_motorControl1 127 s else s ;;
  do s <- if motorControl2 s <? 128 then set_motorControl2 128 s else s ;;
  do s <- if motorControl2 s >? 255 then set_motorControl2 255 s else s ;;
  s.

(** "convert command values to byte format for serial communication". *)
Definition convertBytes (s : State) : State :=
  s |> set_motorByte1 (to_byte (motorControl1 s))
    |> set_motorByte2 (to_byte (motorControl2 s)).

(** "Trim correction to track straight in forward or reverse": the
    [if (rawSpeed1 > abs(trimAdjustment))] block with its [switch] on the
    global [buttonPinNumber]. *)
Definition trimCorrection (s : State) : State :=
  if rawSpeed1 s >? abs (trimAdjustment s) then
    if buttonPinNumber s =? 3 then
      if trimAdjustment s <? 0 then
        s |> set_motorByte1 (to_byte (motorControl1 s + trimAdjustment s))
          |> set_motorByte2 (to_byte (motorControl2 s))
      else
        s |> set_motorByte1 (to_byte (motorControl1 s))
          |> set_motorByte2 (to_byte (motorControl2 s - trimAdjustment s))
    else if buttonPinNumber s =? 4 then
      if trimAdjustment s <? 0 then
        s |> set_motorByte1 (to_byte (motorControl1 s - trimAdjustment s))
          |> set_motorByte2 (to_byte (motorControl2 s))
      else
        s |> set_motorByte1 (to_byte (motorControl1 s))
          |> set_motorByte2 (to_byte (motorControl2 s + trimAdjustment s))
    else s
  else s.

(** "Send motor commands to Sabertooth". *)
Definition transmit (s : State) : State :=
  s |> serial_write (motorByte1 s) |> serial_write (motorByte2 s).

Definition sendCommandFunction (s : State) : State :=
  do s <- clampCommands s ;;
  do s <- convertBytes s ;;
  do s <- trimCorrection s ;;
  transmit s.

(** ** Accelerate Forward *)

Definition accelerateForward (s : State) : State :=
  do s <- set_speedDifference
             (abs ((maxFwdSpeed1 s - motorControl1 s)
                   - (maxFwdSpeed2 s - motorControl2 s))) s ;;
  (* speeds mismatched by < accelFactor *)
  do s <-
    if negb (speedDifference s =? 0) then
      if speedDifference s <? accelFactor then
        if (maxFwdSpeed1 s - motorControl1 s) >? (maxFwdSpeed2 s - motorControl2 s)
        then set_motorControl1 (motorControl1 s + speedDifference s) s
        else set_motorControl2 (motorControl2 s + speedDifference s) s
      else s
    else s ;;
  if speedDifference s =? 0 then
    (* Motor speeds equal *)
    do s <- if motorControl1 s <? deadStop1
             then set_motorControl1 (motorControl1 s + decelFactor) s
             else set_motorControl1 (motorControl1 s + accelFactor) s ;;
    do s <- if motorControl1 s =? deadStop1
             then set_motorControl1 (motorControl1 s + accelFactor) s else s ;;
    do s <- if motorControl1 s >? maxFwdSpeed1 s
             then set_motorControl1 (maxFwdSpeed1 s) s else s ;;
    do s <- if motorControl2 s <? deadStop2
             then set_motorControl2 (motorControl2 s + decelFactor) s
             else set_motorControl2 (motorControl2 s + accelFactor) s ;;
    do s <- if motorControl2 s =? deadStop2
             then set_motorControl2 (motorControl2 s + accelFactor) s else s ;;
    do s <- if motorControl2 s >? maxFwdSpeed2 s
             then set_motorControl2 (maxFwdSpeed2 s) s else s ;;
    s
  else if (maxFwdSpeed1 s - motorControl1 s) >? (maxFwdSpeed2 s - motorControl2 s) then
    (* Left motor slow *)
    do s <- set_motorControl1 (motorControl1 s + accelFactor) s ;;
    do s <- if motorControl1 s =? deadStop1
             then set_motorControl1 (motorControl1 s + accelFactor) s else s ;;
    do s <- if motorControl1 s >? maxFwdSpeed1 s
             then set_motorControl1 (maxFwdSpeed1 s) s else s ;;
    s
  else
    (* right motor slow *)
    do s <- set_motorControl2 (motorControl2 s + accelFactor) s ;;
    do s <- if motorControl2 s =? deadStop2
             then set_motorControl2 (deadStop2 + accelFactor) s else s ;;
    do s <- if motorControl2 s >? maxFwdSpeed2 s
             then set_motorControl2 (maxFwdSpeed2 s) s else s ;;
    s.

(** ** Accelerate Reverse *)

Definition accelerateReverse (s : State) : State :=
  if (maxFwdSpeed1 s - motorControl1 s) =? (maxFwdSpeed2 s - motorControl2 s) then
    do s <- if motorControl1 s >? deadStop2
             then set_motorControl1 (motorControl1 s - decelFactor) s
             else set_motorControl1 (motorControl1 s - accelFactor) s ;;
    do s <- if motorControl1 s =? deadStop1
             then set_motorControl1 (deadStop1 - accelFactor) s else s ;;
    do s <- if motorControl1 s <? maxRevSpeed1 s
             then set_motorControl1 (maxRevSpeed1 s) s else s ;;
    do s <- if motorControl2 s >? deadStop2
             then set_motorControl2 (motorControl2 s - decelFactor) s
             else set_motorControl2 (motorControl2 s - accelFactor) s ;;
    do s <- if motorControl2 s =? deadStop2
             then set_motorControl2 (deadStop2 - accelFactor) s else s ;;
    do s <- if motorControl2 s <? maxRevSpeed2 s
             then set_motorControl2 (maxRevSpeed2 s) s else s ;;
    s
  else if (maxFwdSpeed1 s - motorControl1 s) <? (maxFwdSpeed2 s - motorControl2 s) then
    (* Left motor fast *)
    do s <- set_motorControl1 (motorControl1 s - accelFactor) s ;;
    do s <- if motorControl1 s =? deadStop1
             then set_motorControl1 (deadStop1 - accelFactor) s else s ;;
    do s <- if motorControl1 s <? maxRevSpeed1 s
             then set_motorControl1 (maxRevSpeed1 s) s else s ;;
    s
  else
    (* Left motor slow *)
    do s <- set_motorControl2 (motorControl2 s - accelFactor) s ;;
    do s <- if motorControl2 s =? deadStop2
             then set_motorControl2 (deadStop2 - accelFactor) s else s ;;
    do s <- if motorControl2 s <? maxRevSpeed2 s
             then set_motorControl2 (maxRevSpeed2 s) s else s ;;
    s.

(** ** Left button *)

(** Body of the [(direction1 != direction2) or (rawSpeed1 == 0)] branch:
    both motors step, motor 1 toward reverse and motor 2 toward forward. *)
Definition leftPivotStep (s : State) : State :=
  do s <- set_motorControl1 (motorControl1 s - accelFactor) s ;;
  do s <- set_motorControl2 (motorControl2 s + accelFactor) s ;;
  do s <- if motorControl1 s =? deadStop1
           then set_motorControl1 (deadStop1 - accelFactor) s else s ;;
  do s <- if motorControl1 s <? maxRevSpeed1 s
           then set_motorControl1 (maxRevSpeed1 s) s else s ;;
  do s <- if motorControl2 s =? deadStop2
           then set_motorControl2 (deadStop2 + accelFactor) s else s ;;
  do s <- if motorControl2 s >? maxFwdSpeed2 s
           then set_motorControl2 (maxFwdSpeed2 s) s else s ;;
  s.

(** Body of the [direction1 == direction2] branch (moving straight): one
    motor is slowed by the decel increment. *)
Definition leftStraightStep (s : State) : State :=
  if direction1 s =? 1 then
    do s <- set_motorControl1 (motorControl1 s - decelFactor) s ;;
    do s <- if motorControl1 s =? deadStop1
             then set_motorControl1 (deadStop1 - decelFactor) s else s ;;
    do s <- if motorControl1 s <? maxRevSpeed1 s
             then set_motorControl1 (maxRevSpeed1 s) s else s ;;
    s
  else
    do s <- set_motorControl2 (motorControl2 s + decelFactor) s ;;
    do s <- if motorControl2 s =? deadStop2
             then set_motorControl2 (deadStop2 + decelFactor) s else s ;;
    do s <- if motorControl2 s >? maxFwdSpeed2 s
             then set_motorControl2 (maxFwdSpeed2 s) s else s ;;
    s.

Definition leftButtonPressed (s : State) : State :=
  if rawSpeed1 s =? rawSpeed2 s then
    if negb (direction1 s =? direction2 s) || (rawSpeed1 s =? 0) then
      leftPivotStep s
    else if direction1 s =? direction2 s then
      leftStraightStep s
    else if negb (direction1 s =? direction2 s) then
      if motorControl2 s <? maxFwdSpeed2 s then
        do s <- set_motorControl2 (motorControl2 s + accelFactor) s ;;
        do s <- if motorControl2 s =? deadStop2
                 then set_motorControl2 (deadStop2 + accelFactor) s else s ;;
        do s <- if motorControl2 s >? maxFwdSpeed2 s
                 then set_motorControl2 (maxFwdSpeed2 s) s else s ;;
        s
      else s
    else s
  else
    if rawSpeed1 s <? rawSpeed2 s then
      if motorControl1 s >? maxRevSpeed1 s then
        do s <- set_motorControl1 (motorControl1 s - accelFactor) s ;;
        do s <- if motorControl1 s =? deadStop1
                 then set_motorControl1 (deadStop1 - accelFactor) s else s ;;
        do s <- if motorControl1 s <? maxRevSpeed1 s
                 then set_motorControl1 (maxRevSpeed1 s) s else s ;;
        s
      else s
    else if rawSpeed1 s >? rawSpeed2 s then
      if motorControl2 s <? maxFwdSpeed2 s then
        do s <- set_motorControl2 (motorControl2 s + accelFactor) s ;;
        do s <- if motorControl2 s =? deadStop2
                 then set_motorControl2 (deadStop2 + accelFactor) s else s ;;
        do s <- if motorControl2 s >? maxFwdSpeed2 s
                 then set_motorControl2 (maxRevSpeed2 s) s else s ;;
        s
      else s
    else s.

(** ** Right button *)

(** Body of the [(direction1 != direction2) or (rawSpeed1 == 0)] branch. *)
Definition rightPivotStep (s : State) : State :=
  if motorControl1 s <? maxFwdSpeed1 s then
    do s <- set_motorControl1 (motorControl1 s + accelFactor) s ;;
    do s <- set_motorControl2 (motorControl2 s - accelFactor) s ;;
    do s <- if (motorControl1 s =? 0) || (motorControl1 s =? deadStop1)
             then set_motorControl1 (deadStop1 + accelFactor) s else s ;;
    do s <- if (motorControl2 s =? 0) || (motorControl2 s =? deadStop2)
             then set_motorControl2 (deadStop2 - accelFactor) s else s ;;
    s
  else s.

(** Body of the [direction1 == direction2] branch (moving straight). *)
Definition rightStraightStep (s : State) : State :=
  if direction1 s =? 0 then
    if motorControl1 s <? maxFwdSpeed1 s then
      do s <- set_motorControl1 (motorControl1 s + accelFactor) s ;;
      do s <- if (motorControl1 s =? 0) || (motorControl1 s =? deadStop1)
               then set_motorControl1 (deadStop1 + accelFactor) s else s ;;
      s
    else s
  else
    if motorControl2 s >? maxRevSpeed2 s then
      do s <- set_motorControl2 (motorControl2 s - accelFactor) s ;;
      do s <- if (motorControl2 s =? 0) || (motorControl2 s =? deadStop2)
               then set_motorControl2 (deadStop2 - accelFactor) s else s ;;
      do s <- if motorControl2 s <? maxRevSpeed2 s
               then set_motorControl2 (maxRevSpeed2 s) s else s ;;
      s
    else s.

(** The [if (rawSpeed1 > rawSpeed2)] block of the unequal-speed case. *)
Definition rightFasterStep (s : State) : State :=
  if rawSpeed1 s >? rawSpeed2 s then
    if motorControl2 s >? maxRevSpeed2 s then
      do s <- set_motorControl2 (motorControl2 s - accelFactor) s ;;
      do s <- if motorControl2 s =? deadStop2
               then set_motorControl2 (deadStop2 - accelFactor) s else s ;;
      do s <- if motorControl2 s <? maxRevSpeed2 s
               then set_motorControl2 (maxRevSpeed2 s) s else s ;;
      s
    else s
  else s.

Definition rightButtonPressed (s : State) : State :=
  if rawSpeed1 s =? rawSpeed2 s then
    if negb (direction1 s =? direction2 s) || (rawSpeed1 s =? 0) then
      rightPivotStep s
    else if direction1 s =? direction2 s then
      rightStraightStep s
    else s
  else
    if rawSpeed1 s <? rawSpeed2 s then
      if motorControl1 s <? maxFwdSpeed1 s then
        do s <- set_motorControl1 (motorControl1 s + accelFactor) s ;;
        do s <- if (motorControl1 s =? 0) || (motorControl1 s =? deadStop1)
                 then set_motorControl1 (deadStop1 + accelFactor) s else s ;;
        s
      else rightFasterStep s
    else rightFasterStep s.

(** ** Decelerate *)

Definition decelerateFunction (s : State) : State :=
  do s <-
    if motorControl1 s >? deadStop1 then
      do s <- set_motorControl1 (motorControl1 s - decelFactor) s ;;
      if motorControl1 s <? deadStop1 then set_motorControl1 deadStop1 s else s
    else s ;;
  do s <-
    if motorControl1 s <? deadStop1 then
      do s <- set_motorControl1 (motorControl1 s + decelFactor) s ;;
      if motorControl1 s >? deadStop1 then set_motorControl1 deadStop1 s else s
    else s ;;
  do s <-
    if motorControl2 s >? deadStop2 then
      do s <- set_motorControl2 (motorControl2 s - decelFactor) s ;;
      if motorControl2 s <? deadStop2 then set_motorControl2 deadStop2 s else s
    else s ;;
  do s <-
    if motorControl2 s <? deadStop2 then
      do s <- set_motorControl2 (motorControl2 s + decelFactor) s ;;
      if motorControl2 s >? deadStop2 then set_motorControl2 deadStop2 s else s
    else s ;;
  s.

(** ** Button pressed *)

(** The two repairs of a zero command at the top of
    [buttonPressedFunction]. *)
Definition repairZero (s : State) : State :=
  do s <- if motorControl1 s =? 0 then set_motorControl1 deadStop1 s else s ;;
  do s <- if motorControl2 s =? 0 then set_motorControl2 deadStop2 s else s ;;
  s.

(** The state-machine part of [buttonPressedFunction]: the repairs and
    the [switch] on the pin. *)
Definition motionUpdate (pin : Z) (s : State) : State :=
  do s <- repairZero s ;;
  if pin =? 2 then
    s |> set_motorControl1 deadStop1 |> set_motorControl2 deadStop2
  else if pin =? 3 then accelerateForward s
  else if pin =? 4 then accelerateReverse s
  else if pin =? 5 then leftButtonPressed s
  else if pin =? 6 then rightButtonPressed s
  else s.

Definition buttonPressedFunction (pin : Z) (s : State) : State :=
  do s <- motionUpdate pin s ;;
  sendCommandFunction s.

(** ** The control loop *)

(** "set max command values based on throttle (potentiometer) setting"
    and "set steering correction based on trim (potentiometer) setting". *)
Definition readPots (i : Inputs) (s : State) : State :=
  s |> set_maxRevSpeed1 (to_byte (map (throttlePot i) 0 1023 63 1))
    |> set_maxFwdSpeed1 (to_byte (map (throttlePot i) 0 1023 65 127))
    |> set_maxRevSpeed2 (to_byte (map (throttlePot i) 0 1023 191 128))
    |> set_maxFwdSpeed2 (to_byte (map (throttlePot i) 0 1023 193 255))
    |> set_trimAdjustment (map (trimPot i) 0 1023 (-1 * trimSens) trimSens).

(** The reset (normal mode) or count-down (beginner mode) of the button
    pressed indicator at the top of [loop]. *)
Definition latchStep (s : State) : State :=
  do s <- if negb (beginnerMode s) then set_buttonPressedIndicator 0 s else s ;;
  do s <- if beginnerMode s && (buttonPressedIndicator s >? 0)
           then set_buttonPressedIndicator
                  (to_byte (buttonPressedIndicator s - 1)) s
           else s ;;
  s.

(** [for (buttonPinNumber = first; buttonPinNumber <= 6; ++buttonPinNumber)]
    with [n] pins left to read: the first pin read LOW marks the indicator
    with [mark], runs [buttonPressedFunction] and breaks. *)
Fixpoint pollButtons (n : nat) (pin : Z) (mark : State -> State)
    (i : Inputs) (s : State) : State :=
  do s <- set_buttonPinNumber pin s ;;
  match n with
  | O => s
  | S k =>
      if low i pin then
        do s <- mark s ;;
        buttonPressedFunction pin s
      else pollButtons k (to_byte (pin + 1)) mark i s
  end.

Definition pollNormal (i : Inputs) (s : State) : State :=
  if negb (beginnerMode s) then
    pollButtons 5 2
      (fun s => set_buttonPressedIndicator
                  (to_byte (buttonPressedIndicator s + 1)) s) i s
  else s.

Definition pollBeginner (i : Inputs) (s : State) : State :=
  if beginnerMode s then
    pollButtons 5 2 (set_buttonPressedIndicator beginnerModeDelay) i s
  else s.

(** Both commands at rest ([0] or the dead stop). *)
Definition atRest (s : State) : bool :=
  ((motorControl1 s =? 0) || (motorControl1 s =? deadStop1))
  && ((motorControl2 s =? 0) || (motorControl2 s =? deadStop2)).

(** "Compute equivalent motor speeds so that left vs right can be
    compared." *)
Definition deriveSpeeds (s : State) : State :=
  if atRest s then
    s |> set_rawSpeed1 0 |> set_rawSpeed2 0
  else
    do s <- set_rawSpeed1 (to_byte (abs (deadStop1 - motorControl1 s))) s ;;
    do s <- set_rawSpeed2 (to_byte (abs (deadStop2 - motorControl2 s))) s ;;
    do s <- if motorControl1 s >=? deadStop1
             then set_direction1 (chr "1") s
             else set_direction1 (chr "0") s ;;
    do s <- if motorControl2 s >=? deadStop2
             then set_direction2 (chr "1") s
             else set_direction2 0 s ;;
    s.

(** "If no buttons have been pressed decelerate." *)
Definition idleStep (s : State) : State :=
  if buttonPressedIndicator s =? 0 then
    do s <- if atRest s
             then s |> set_motorControl1 deadStop1
                    |> set_motorControl2 deadStop2
             else decelerateFunction s ;;
    sendCommandFunction s
  else s.

Definition loop (i : Inputs) (s : State) : State :=
  do s <- readPots i s ;;
  do s <- latchStep s ;;
  do s <- pollNormal i s ;;
  do s <- pollBeginner i s ;;
  do s <- deriveSpeeds s ;;
  idleStep s.

(** State after the globals' initialisers and [setup]; [pin12] tells
    whether the beginner-mode switch reads LOW at power-up. *)
Definition setup (pin12 : bool) : State :=
  mkState deadStop1 deadStop2 0 0 0 0 0 1 1 0 0 0 0 0 0 0 pin12 [].

(** Successive passes of a loop body, one per element of the input
    list. *)
Section Iterate.

Variable body : Inputs -> State -> State.

Fixpoint iterate (ticks : list Inputs) (s : State) : State :=
  match ticks with
  | [] => s
  | i :: rest => iterate rest (body i s)
  end.

End Iterate.

Definition run : list Inputs -> State -> State := iterate loop.

(** Inputs with exactly the button on [pin] held, or none for [pin = 0]. *)
Definition press (pin throttle trim : Z) : Inputs :=
  mkInputs throttle trim (fun p => p =? pin).


(** * Specification vocabulary *)

(** Commands that fit the wire protocol: byte 1 in [1,127], byte 2 in
    [128,255]. *)
Definition valid_commands (s : State) : Prop :=
  1 <= motorControl1 s <= 127 /\ 128 <= motorControl2 s <= 255.

(** A byte that fits motor A's, respectively motor B's, wire range. *)
Definition wire1 (b : Z) : Prop := 1 <= b <= 127.
Definition wire2 (b : Z) : Prop := 128 <= b <= 255.

(** Governor bounds that leave the dead stops out. *)
Definition bounds_off_center (s : State) : Prop :=
  maxRevSpeed1 s < deadStop1 < maxFwdSpeed1 s /\
  maxRevSpeed2 s < deadStop2 < maxFwdSpeed2 s.

(** Forward's convergence correction moves motor 1: its headroom exceeds
    motor 2's by one, which is less than the accel increment. *)
Definition snapsMotor1 (s : State) : Prop :=
  (maxFwdSpeed1 s - motorControl1 s) - (maxFwdSpeed2 s - motorControl2 s) = 1.

(** The mirror image of a state: every command and bound reflected in its
    motor's dead stop, forward ceilings and reverse floors exchanged. *)
Definition mirror (s : State) : State :=
  s |> set_motorControl1 (2 * deadStop1 - motorControl1 s)
    |> set_motorControl2 (2 * deadStop2 - motorControl2 s)
    |> set_maxFwdSpeed1 (2 * deadStop1 - maxRevSpeed1 s)
    |> set_maxRevSpeed1 (2 * deadStop1 - maxFwdSpeed1 s)
    |> set_maxFwdSpeed2 (2 * deadStop2 - maxRevSpeed2 s)
    |> set_maxRevSpeed2 (2 * deadStop2 - maxFwdSpeed2 s).

(** The state machine writes the two commands and [speedDifference]. *)
Definition with_commands (a b d : Z) (s : State) : State :=
  s |> set_motorControl1 a |> set_motorControl2 b |> set_speedDifference d.

(** Send Command also writes the two bytes and the serial port. *)
Definition with_sent (m1 m2 : Z) (s : State) : State :=
  s |> set_motorByte1 m1 |> set_motorByte2 m2
    |> serial_write m1 |> serial_write m2.

(** The speed derivation writes the raw speeds and directions. *)
Definition with_derived (r1 r2 d1 d2 : Z) (s : State) : State :=
  s |> set_rawSpeed1 r1 |> set_rawSpeed2 r2
    |> set_direction1 d1 |> set_direction2 d2.

(** [f] writes nothing but the two commands and [speedDifference]. *)
Definition writes_commands (f : State -> State) : Prop :=
  forall s, exists a b d, f s = with_commands a b d s.

(** The emitted byte is the command, or the command moved by the trim. *)
Definition encodes (t command byte : Z) : Prop :=
  byte = to_byte command \/ byte = to_byte (command + t) \/
  byte = to_byte (command - t).

(** [s'] comes from [s] by one run of the encoder: one byte pair more on
    the serial port, encoding the commands that [s'] holds. *)
Definition transmitted (s s' : State) : Prop :=
  serial s' = serial s ++ [motorByte1 s'; motorByte2 s'] /\
  valid_commands s' /\
  encodes (trimAdjustment s') (motorControl1 s') (motorByte1 s') /\
  encodes (trimAdjustment s') (motorControl2 s') (motorByte2 s').

(** The first pin, in polling order, that reads LOW. *)
Definition firstLow (i : Inputs) : option Z :=
  if low i 2 then Some 2
  else if low i 3 then Some 3
  else if low i 4 then Some 4
  else if low i 5 then Some 5
  else if low i 6 then Some 6
  else None.

(** Some button is held. *)
Definition anyLow (i : Inputs) : bool :=
  low i 2 || low i 3 || low i 4 || low i 5 || low i 6.

(** How a pressed button marks [buttonPressedIndicator]: the count of the
    normal mode, or the latch of the beginner mode. *)
Definition markPressed (s : State) : State :=
  if beginnerMode s then set_buttonPressedIndicator beginnerModeDelay s
  else set_buttonPressedIndicator (to_byte (buttonPressedIndicator s + 1)) s.

(** The state that the polling loop starts from. *)
Definition polled (i : Inputs) (s : State) : State :=
  latchStep (readPots i s).

(** A beginner-mode pass with no button held and the latch still counting
    after this pass's decrement. *)
Definition latched (i : Inputs) (s : State) : bool :=
  beginnerMode s && negb (anyLow i) && (buttonPressedIndicator s >? 1).

(** A pass that takes the "no buttons have been pressed" branch. *)
Definition idle (i : Inputs) (s : State) : Prop :=
  anyLow i = false /\
  (beginnerMode s = false \/ 0 <= buttonPressedIndicator s <= 1).

(** One deceleration step of a command [x] toward its dead stop [c]: by
    the decel increment, stopping at [c]. *)
Definition decelerated (c x x' : Z) : Prop :=
  (c < x -> x' = Z.max c (x - decelFactor)) /\
  (x < c -> x' = Z.min c (x + decelFactor)) /\
  (x = c -> x' = c).

(** A state with everything the trim can reach blanked out: the trim
    itself, the two emitted bytes and the serial port. *)
Definition untrimmed (s : State) : State :=
  mkState (motorControl1 s) (motorControl2 s) 0 0 (rawSpeed1 s)
    (rawSpeed2 s) (speedDifference s) (direction1 s) (direction2 s)
    (buttonPinNumber s) (buttonPressedIndicator s) 0
    (maxFwdSpeed1 s) (maxFwdSpeed2 s) (maxRevSpeed1 s) (maxRevSpeed2 s)
    (beginnerMode s) [].

(** [f] and [g] cannot tell states apart that differ only in what the
    trim reaches. *)
Definition trim_blind (f g : State -> State) : Prop :=
  forall s s', untrimmed s = untrimmed s' -> untrimmed (f s) = untrimmed (g s').

(** Two readings of the pins that differ at most in the trim pot. *)
Definition same_but_trim (i j : Inputs) : Prop :=
  throttlePot i = throttlePot j /\ forall p, low i p = low j p.

(** States the sketch can be in between two passes of [loop]. *)
Inductive reachable : State -> Prop :=
| reach_setup (pin12 : bool) : reachable (setup pin12)
| reach_loop (i : Inputs) (s : State) : reachable s -> reachable (loop i s).

(** The governor bounds that [loop] derives from a throttle reading:
    forward ceilings and reverse floors of the two motors. *)
Definition fwdCeiling1 (pot : Z) : Z := to_byte (map pot 0 1023 65 127).
Definition fwdCeiling2 (pot : Z) : Z := to_byte (map pot 0 1023 193 255).
Definition revFloor1 (pot : Z) : Z := to_byte (map pot 0 1023 63 1).
Definition revFloor2 (pot : Z) : Z := to_byte (map pot 0 1023 191 128).

(** The trim adjustment that [loop] derives from a trim pot reading. *)
Definition trimOf (pot : Z) : Z := map pot 0 1023 (-1 * trimSens) trimSens.

(** The state handed to [buttonPressedFunction] when [pin] is the first
    one read LOW. *)
Definition pressedState (pin : Z) (i : Inputs) (s : State) : State :=
  markPressed (set_buttonPinNumber pin (polled i s)).

(** What a pass keeps of its two pot readings. *)
Definition pots (s : State) : Z * Z * Z * Z * Z :=
  (maxRevSpeed1 s, maxFwdSpeed1 s, maxRevSpeed2 s, maxFwdSpeed2 s,
   trimAdjustment s).

(** What the encoder's trim block reads besides the commands. *)
Definition trimInputs (s : State) : Z * Z * Z :=
  (rawSpeed1 s, buttonPinNumber s, trimAdjustment s).

(** Commands on a straight reverse ramp with floors [f1] and [f2]: in
    lock step at or below the dead stops and on or above the floors, or
    both on their floors. *)
Definition reverseRamp (f1 f2 : Z) (s : State) : Prop :=
  (motorControl2 s = motorControl1 s + 128 /\
   f1 <= motorControl1 s <= deadStop1) \/
  (motorControl1 s = f1 /\ motorControl2 s = f2).

(** Forward headrooms: what Forward and Reverse both compare. *)
Definition headroom1 (s : State) : Z := maxFwdSpeed1 s - motorControl1 s.
Definition headroom2 (s : State) : Z := maxFwdSpeed2 s - motorControl2 s.

(** The test [(direction1 != direction2) or (rawSpeed1 == 0)] that opens
    the equal-speed case of both turn functions. *)
Definition pivots (s : State) : bool :=
  negb (direction1 s =? direction2 s) || (rawSpeed1 s =? 0).

(** The branch that the update for [pin] takes from [s] applies a ramp
    step (an accel or decel increment) to motor A.  Forward: equal
    headrooms, or motor A short by the accel increment or more; Reverse:
    equal headrooms or motor A ahead; Left and Right: by raw speeds,
    directions and the guards on the bounds, as their branches read. *)
Definition stepsMotor1 (pin : Z) (s : State) : bool :=
  if pin =? 3 then
    (headroom1 s =? headroom2 s)
    || ((headroom1 s >? headroom2 s)
        && negb (abs (headroom1 s - headroom2 s) <? accelFactor))
  else if pin =? 4 then
    (headroom1 s =? headroom2 s) || (headroom1 s <? headroom2 s)
  else if pin =? 5 then
    if rawSpeed1 s =? rawSpeed2 s
    then pivots s || (direction1 s =? 1)
    else (rawSpeed1 s <? rawSpeed2 s) && (motorControl1 s >? maxRevSpeed1 s)
  else if pin =? 6 then
    if rawSpeed1 s =? rawSpeed2 s
    then (if pivots s then true else direction1 s =? 0)
         && (motorControl1 s <? maxFwdSpeed1 s)
    else (rawSpeed1 s <? rawSpeed2 s) && (motorControl1 s <? maxFwdSpeed1 s)
  else false.

(** The same for motor B.  Forward steps motor B in every branch but the
    one for motor A short by the accel increment or more: after a
    convergence correction of either motor the headrooms are equal and
    the last branch, motor B's, runs. *)
Definition stepsMotor2 (pin : Z) (s : State) : bool :=
  if pin =? 3 then
    negb ((headroom1 s >? headroom2 s)
          && negb (abs (headroom1 s - headroom2 s) <? accelFactor))
  else if pin =? 4 then
    negb (headroom1 s <? headroom2 s)
  else if pin =? 5 then
    if rawSpeed1 s =? rawSpeed2 s
    then pivots s || negb (direction1 s =? 1)
    else (rawSpeed1 s >? rawSpeed2 s) && (motorControl2 s <? maxFwdSpeed2 s)
  else if pin =? 6 then
    if rawSpeed1 s =? rawSpeed2 s
    then if pivots s then motorControl1 s <? maxFwdSpeed1 s
         else negb (direction1 s =? 0) && (motorControl2 s >? maxRevSpeed2 s)
    else (rawSpeed1 s >? rawSpeed2 s) && (motorControl2 s >? maxRevSpeed2 s)
  else false.

(** * Proof support *)

(** Unfolds the model functions, setters and projections, leaving [bind]
    and the integer operations alone. *)
Ltac unfold_model :=
  cbv beta iota delta
    [sendCommandFunction clampCommands convertBytes trimCorrection transmit
     accelerateForward accelerateReverse leftPivotStep leftStraightStep
     leftButtonPressed rightPivotStep rightStraightStep rightFasterStep
     rightButtonPressed decelerateFunction repairZero motionUpdate
     buttonPressedFunction
     deriveSpeeds atRest idleStep latchStep readPots
     set_motorControl1 set_motorControl2 set_motorByte1 set_motorByte2
     set_rawSpeed1 set_rawSpeed2 set_speedDifference set_direction1
     set_direction2 set_buttonPinNumber set_buttonPressedIndicator
     set_trimAdjustment set_maxFwdSpeed1 set_maxFwdSpeed2 set_maxRevSpeed1
     set_maxRevSpeed2 serial_write
     motorControl1 motorControl2 motorByte1 motorByte2 rawSpeed1 rawSpeed2
     speedDifference direction1 direction2 buttonPinNumber
     buttonPressedIndicator trimAdjustment maxFwdSpeed1 maxFwdSpeed2
     maxRevSpeed1 maxRevSpeed2 beginnerMode serial
     accelFactor decelFactor trimSens beginnerModeDelay deadStop1 deadStop2
     abs negb andb orb].

(** Runs the first statement of a sequence once the state it starts from
    is known field by field. *)
Ltac run_bind :=
  match goal with
  | |- context [bind ?v ?k] =>
      lazymatch v with
      | mkState _ _ _ _ _ _ _ _ _ _ _ _ _ _ _ _ _ _ =>
          change (bind v k) with (k v); cbv beta iota
      end
  end.

(** Splits on an innermost test of the goal and drops the branch whose
    tests so far contradict each other. *)
Ltac split_test :=
  match goal with
  | |- context [if ?c then _ else _] =>
      lazymatch c with
      | context [if _ then _ else _] => fail
      | _ => destruct c eqn:?
      end
  end; cbv beta iota; try (exfalso; lia).

(** Symbolic execution of straight-line model code. *)
Ltac exec := repeat first [run_bind | split_test].

(** Case analysis of a model function applied to an arbitrary state. *)
Ltac by_cases s := destruct s; unfold_model; exec.

(** A function of the state machine returns its argument with new
    commands and a new speed difference. *)
Ltac shape s := destruct s; unfold_model; exec; do 3 eexists; reflexivity.

(** ** What each part of a tick may write *)

Lemma repairZero_writes : writes_commands repairZero.
Proof. intros s. shape s. Qed.

Lemma accelerateForward_writes : writes_commands accelerateForward.
Proof. intros s. shape s. Qed.

Lemma accelerateReverse_writes : writes_commands accelerateReverse.
Proof. intros s. shape s. Qed.

Lemma leftButtonPressed_writes : writes_commands leftButtonPressed.
Proof. intros s. shape s. Qed.

Lemma rightButtonPressed_writes : writes_commands rightButtonPressed.
Proof. intros s. shape s. Qed.

Lemma decelerateFunction_writes : writes_commands decelerateFunction.
Proof. intros s. shape s. Qed.

Lemma motionUpdate_pin (s : State) :
  motionUpdate 2 s
    = set_motorControl2 deadStop2 (set_motorControl1 deadStop1 (repairZero s)) /\
  motionUpdate 3 s = accelerateForward (repairZero s) /\
  motionUpdate 4 s = accelerateReverse (repairZero s) /\
  motionUpdate 5 s = leftButtonPressed (repairZero s) /\
  motionUpdate 6 s = rightButtonPressed (repairZero s).
Proof. repeat split. Qed.

Lemma motionUpdate_writes pin : writes_commands (motionUpdate pin).
Proof.
  intros s. unfold motionUpdate, bind.
  destruct (repairZero_writes s) as (a & b & d & ->).
  set (r := with_commands a b d s).
  assert (K : forall f, writes_commands f ->
                        exists a b d, f r = with_commands a b d s).
  { intros f F. destruct (F r) as (a' & b' & d' & ->).
    exists a', b', d'. reflexivity. }
  destruct (pin =? 2).
  { exists deadStop1, deadStop2, d. reflexivity. }
  destruct (pin =? 3); [ apply K, accelerateForward_writes | ].
  destruct (pin =? 4); [ apply K, accelerateReverse_writes | ].
  destruct (pin =? 5); [ apply K, leftButtonPressed_writes | ].
  destruct (pin =? 6); [ apply K, rightButtonPressed_writes | ].
  exists a, b, d. reflexivity.
Qed.

Lemma repairZero_fields (s : State) :
  motorControl1 (repairZero s)
    = (if motorControl1 s =? 0 then deadStop1 else motorControl1 s) /\
  motorControl2 (repairZero s)
    = (if motorControl2 s =? 0 then deadStop2 else motorControl2 s) /\
  maxFwdSpeed1 (repairZero s) = maxFwdSpeed1 s /\
  maxFwdSpeed2 (repairZero s) = maxFwdSpeed2 s /\
  maxRevSpeed1 (repairZero s) = maxRevSpeed1 s /\
  maxRevSpeed2 (repairZero s) = maxRevSpeed2 s.
Proof. by_cases s; repeat split; reflexivity. Qed.

(** ** The encoder *)

Lemma clampCommands_valid (s : State) : valid_commands (clampCommands s).
Proof. unfold valid_commands. by_cases s; lia. Qed.

Lemma clampCommands_id (s : State) :
  valid_commands s -> clampCommands s = s.
Proof.
  unfold valid_commands. destruct s. unfold_model. intros H.
  exec; solve [reflexivity | lia].
Qed.

Lemma sendCommandFunction_shape (s : State) :
  exists a b m1 m2,
    sendCommandFunction s
      = with_sent m1 m2 (with_commands a b (speedDifference s) s) /\
    a = motorControl1 (clampCommands s) /\
    b = motorControl2 (clampCommands s) /\
    encodes (trimAdjustment s) a m1 /\ encodes (trimAdjustment s) b m2.
Proof.
  unfold encodes.
  destruct s; unfold_model; exec; do 4 eexists;
    (split; [ reflexivity | ]); repeat split; auto.
Qed.

Lemma sendCommandFunction_transmitted (s : State) :
  transmitted s (sendCommandFunction s).
Proof.
  destruct (sendCommandFunction_shape s)
    as (a & b & m1 & m2 & -> & Ha & Hb & E1 & E2).
  unfold transmitted, valid_commands.
  destruct (clampCommands_valid s) as [V1 V2]. rewrite <- Ha, <- Hb in *.
  split; [ | split; [ exact (conj V1 V2) | split; assumption ] ].
  cbn. rewrite <- app_assoc. reflexivity.
Qed.

Lemma sendCommandFunction_valid (s : State) :
  valid_commands (sendCommandFunction s).
Proof. apply sendCommandFunction_transmitted. Qed.

Lemma deriveSpeeds_shape (s : State) :
  exists r1 r2 d1 d2, deriveSpeeds s = with_derived r1 r2 d1 d2 s.
Proof. destruct s; unfold_model; exec; do 4 eexists; reflexivity. Qed.

Lemma buttonPressedFunction_shape (pin : Z) (s : State) :
  exists a b d m1 m2,
    buttonPressedFunction pin s = with_sent m1 m2 (with_commands a b d s) /\
    a = motorControl1 (clampCommands (motionUpdate pin s)) /\
    b = motorControl2 (clampCommands (motionUpdate pin s)) /\
    encodes (trimAdjustment s) a m1 /\ encodes (trimAdjustment s) b m2.
Proof.
  unfold buttonPressedFunction, bind.
  destruct (sendCommandFunction_shape (motionUpdate pin s))
    as (a & b & m1 & m2 & E & Ha & Hb & E1 & E2).
  destruct (motionUpdate_writes pin s) as (a' & b' & d' & M).
  exists a, b, d', m1, m2.
  rewrite E. rewrite M in *. repeat split; assumption.
Qed.

Lemma buttonPressedFunction_transmitted (pin : Z) (s : State) :
  transmitted s (buttonPressedFunction pin s).
Proof.
  destruct (buttonPressedFunction_shape pin s)
    as (a & b & d & m1 & m2 & -> & Ha & Hb & E1 & E2).
  unfold transmitted, valid_commands.
  destruct (clampCommands_valid (motionUpdate pin s)) as [V1 V2].
  rewrite <- Ha, <- Hb in *.
  split; [ | split; [ exact (conj V1 V2) | split; assumption ] ].
  cbn. rewrite <- app_assoc. reflexivity.
Qed.

Lemma deriveSpeeds_transmitted (s t : State) :
  transmitted s t -> transmitted s (deriveSpeeds t).
Proof.
  destruct (deriveSpeeds_shape t) as (r1 & r2 & d1 & d2 & ->).
  exact (fun H => H).
Qed.

(** ** One pass of the loop *)

Lemma pollButtons_firstLow mark i s :
  pollButtons 5 2 mark i s
  = match firstLow i with
    | Some p => buttonPressedFunction p (mark (set_buttonPinNumber p s))
    | None => set_buttonPinNumber 7 s
    end.
Proof.
  unfold firstLow. cbn [pollButtons]. unfold bind.
  change (to_byte (2 + 1)) with 3. change (to_byte (3 + 1)) with 4.
  change (to_byte (4 + 1)) with 5. change (to_byte (5 + 1)) with 6.
  change (to_byte (6 + 1)) with 7.
  destruct (low i 2); [ reflexivity | ].
  destruct (low i 3); [ reflexivity | ].
  destruct (low i 4); [ reflexivity | ].
  destruct (low i 5); [ reflexivity | ].
  destruct (low i 6); reflexivity.
Qed.

Lemma poll_firstLow i s :
  pollBeginner i (pollNormal i s)
  = match firstLow i with
    | Some p => buttonPressedFunction p (markPressed (set_buttonPinNumber p s))
    | None => set_buttonPinNumber 7 s
    end.
Proof.
  unfold pollNormal.
  destruct (beginnerMode s) eqn:B; cbn [negb].
  - unfold pollBeginner. rewrite B, pollButtons_firstLow.
    destruct (firstLow i); [ | reflexivity ].
    unfold markPressed. cbn [beginnerMode set_buttonPinNumber]. rewrite B.
    reflexivity.
  - rewrite pollButtons_firstLow.
    assert (M : forall p,
               markPressed (set_buttonPinNumber p s)
               = set_buttonPressedIndicator
                   (to_byte
                      (buttonPressedIndicator (set_buttonPinNumber p s) + 1))
                   (set_buttonPinNumber p s)).
    { intros p. unfold markPressed. cbn [beginnerMode set_buttonPinNumber].
      rewrite B. reflexivity. }
    destruct (firstLow i) as [p | ].
    + rewrite M. set (x := set_buttonPressedIndicator _ _).
      assert (Bx : beginnerMode x = false) by exact B.
      destruct (buttonPressedFunction_shape p x)
        as (a & b & d & m1 & m2 & E & _).
      unfold pollBeginner.
      replace (beginnerMode (buttonPressedFunction p x)) with false;
        [ reflexivity | ].
      rewrite E. symmetry. exact Bx.
    + unfold pollBeginner. cbn [beginnerMode set_buttonPinNumber].
      rewrite B. reflexivity.
Qed.

Lemma polled_fields i s :
  motorControl1 (polled i s) = motorControl1 s /\
  motorControl2 (polled i s) = motorControl2 s /\
  serial (polled i s) = serial s /\
  beginnerMode (polled i s) = beginnerMode s /\
  buttonPressedIndicator (polled i s)
  = (if beginnerMode s
     then if buttonPressedIndicator s >? 0
          then to_byte (buttonPressedIndicator s - 1)
          else buttonPressedIndicator s
     else 0).
Proof.
  unfold polled. destruct s; unfold_model; exec; repeat split; reflexivity.
Qed.

Lemma set_buttonPinNumber_fields p s :
  buttonPressedIndicator (set_buttonPinNumber p s) = buttonPressedIndicator s /\
  beginnerMode (set_buttonPinNumber p s) = beginnerMode s /\
  motorControl1 (set_buttonPinNumber p s) = motorControl1 s /\
  motorControl2 (set_buttonPinNumber p s) = motorControl2 s /\
  serial (set_buttonPinNumber p s) = serial s /\
  buttonPinNumber (set_buttonPinNumber p s) = p.
Proof. repeat split. Qed.

Lemma markPressed_fields s :
  beginnerMode (markPressed s) = beginnerMode s /\
  motorControl1 (markPressed s) = motorControl1 s /\
  motorControl2 (markPressed s) = motorControl2 s /\
  serial (markPressed s) = serial s /\
  buttonPinNumber (markPressed s) = buttonPinNumber s /\
  0 <= buttonPressedIndicator (markPressed s) <= 255.
Proof.
  unfold markPressed. destruct (beginnerMode s) eqn:B; cbn; rewrite ?B.
  - repeat split; discriminate.
  - pose proof (Z.mod_pos_bound (buttonPressedIndicator s + 1) 256 eq_refl).
    unfold to_byte. repeat split; try reflexivity; lia.
Qed.

Lemma markPressed_indicator s :
  buttonPressedIndicator s = 0 \/ beginnerMode s = true ->
  buttonPressedIndicator (markPressed s) <> 0.
Proof.
  destruct s as [? ? ? ? ? ? ? ? ? ? ind ? ? ? ? ? beginner ?].
  unfold markPressed. unfold_model. unfold to_byte.
  intros [-> | ->]; [ destruct beginner | ]; vm_compute; discriminate.
Qed.

Lemma loop_eq i s :
  loop i s
  = idleStep (deriveSpeeds (pollBeginner i (pollNormal i (polled i s)))).
Proof. unfold loop, bind, polled. reflexivity. Qed.

Lemma idleStep_skip s :
  buttonPressedIndicator s <> 0 -> idleStep s = s.
Proof.
  intros H. unfold idleStep, bind.
  destruct (buttonPressedIndicator s =? 0) eqn:E; [ lia | reflexivity ].
Qed.

Lemma pressed_skips_idle p x :
  buttonPressedIndicator x <> 0 ->
  idleStep (deriveSpeeds (buttonPressedFunction p x))
  = deriveSpeeds (buttonPressedFunction p x).
Proof.
  intros X. apply idleStep_skip.
  destruct (buttonPressedFunction_shape p x) as (a & b & d & m1 & m2 & E & _).
  rewrite E.
  destruct (deriveSpeeds_shape (with_sent m1 m2 (with_commands a b d x)))
    as (r1 & r2 & d1 & d2 & D).
  rewrite D. exact X.
Qed.

(** A pass with a button held: the state machine and the encoder run
    once, from the polled state, and the idle branch is skipped. *)
Lemma loop_pressed i s p :
  firstLow i = Some p ->
  loop i s
  = deriveSpeeds
      (buttonPressedFunction p
         (markPressed (set_buttonPinNumber p (polled i s)))).
Proof.
  intros F. rewrite loop_eq, poll_firstLow, F.
  apply pressed_skips_idle, markPressed_indicator.
  destruct (set_buttonPinNumber_fields p (polled i s)) as (-> & -> & _).
  destruct (polled_fields i s) as (_ & _ & _ & -> & ->).
  destruct (beginnerMode s); auto.
Qed.

(** A pass with no button held. *)
Lemma loop_released i s :
  firstLow i = None ->
  loop i s = idleStep (deriveSpeeds (set_buttonPinNumber 7 (polled i s))).
Proof. intros F. rewrite loop_eq, poll_firstLow, F. reflexivity. Qed.

Lemma firstLow_anyLow i :
  (anyLow i = false -> firstLow i = None) /\
  (anyLow i = true -> exists p, firstLow i = Some p /\ 2 <= p <= 6).
Proof.
  unfold anyLow, firstLow.
  destruct (low i 2); [ split; [ discriminate | exists 2; split; [ reflexivity | lia ] ] | ].
  destruct (low i 3); [ split; [ discriminate | exists 3; split; [ reflexivity | lia ] ] | ].
  destruct (low i 4); [ split; [ discriminate | exists 4; split; [ reflexivity | lia ] ] | ].
  destruct (low i 5); [ split; [ discriminate | exists 5; split; [ reflexivity | lia ] ] | ].
  destruct (low i 6); [ split; [ discriminate | exists 6; split; [ reflexivity | lia ] ] | ].
  split; [ reflexivity | discriminate ].
Qed.

Lemma deriveSpeeds_fields (t : State) :
  motorControl1 (deriveSpeeds t) = motorControl1 t /\
  motorControl2 (deriveSpeeds t) = motorControl2 t /\
  serial (deriveSpeeds t) = serial t /\
  beginnerMode (deriveSpeeds t) = beginnerMode t /\
  buttonPressedIndicator (deriveSpeeds t) = buttonPressedIndicator t.
Proof.
  destruct (deriveSpeeds_shape t) as (r1 & r2 & d1 & d2 & ->).
  repeat split.
Qed.

(** The state on which the idle branch decides, on a pass with no button
    held. *)
Lemma released_fields i s :
  let y := deriveSpeeds (set_buttonPinNumber 7 (polled i s)) in
  motorControl1 y = motorControl1 s /\
  motorControl2 y = motorControl2 s /\
  serial y = serial s /\
  beginnerMode y = beginnerMode s /\
  buttonPressedIndicator y = buttonPressedIndicator (polled i s).
Proof.
  intros y. subst y.
  destruct (deriveSpeeds_fields (set_buttonPinNumber 7 (polled i s)))
    as (-> & -> & -> & -> & ->).
  destruct (set_buttonPinNumber_fields 7 (polled i s))
    as (-> & -> & -> & -> & -> & _).
  destruct (polled_fields i s) as (-> & -> & -> & -> & _).
  repeat split.
Qed.

Lemma sendCommandFunction_commands (s : State) :
  motorControl1 (sendCommandFunction s) = motorControl1 (clampCommands s) /\
  motorControl2 (sendCommandFunction s) = motorControl2 (clampCommands s).
Proof.
  destruct (sendCommandFunction_shape s)
    as (a & b & m1 & m2 & -> & -> & -> & _).
  split; reflexivity.
Qed.

Lemma decelerateFunction_step (y : State) :
  decelerated deadStop1 (motorControl1 y)
    (motorControl1 (decelerateFunction y)) /\
  decelerated deadStop2 (motorControl2 y)
    (motorControl2 (decelerateFunction y)).
Proof. unfold decelerated. by_cases y; lia. Qed.

(** The commands that the idle branch hands to the encoder. *)
Lemma idle_move (y : State) :
  valid_commands y ->
  let z := if atRest y
           then set_motorControl2 deadStop2 (set_motorControl1 deadStop1 y)
           else decelerateFunction y in
  decelerated deadStop1 (motorControl1 y) (motorControl1 z) /\
  decelerated deadStop2 (motorControl2 y) (motorControl2 z) /\
  beginnerMode z = beginnerMode y /\
  buttonPressedIndicator z = buttonPressedIndicator y /\
  serial z = serial y.
Proof.
  intros V z. subst z. destruct (atRest y) eqn:R.
  - revert V R. unfold valid_commands, decelerated.
    destruct y; unfold_model; intros V; exec; intros R; try discriminate;
      repeat split; try reflexivity; lia.
  - destruct (decelerateFunction_step y) as [D1 D2].
    destruct (decelerateFunction_writes y) as (a & b & d & E).
    rewrite E in *. split; [ exact D1 | split; [ exact D2 | repeat split ] ].
Qed.

Lemma idleStep_fields (y : State) :
  buttonPressedIndicator y = 0 ->
  valid_commands y ->
  decelerated deadStop1 (motorControl1 y) (motorControl1 (idleStep y)) /\
  decelerated deadStop2 (motorControl2 y) (motorControl2 (idleStep y)) /\
  beginnerMode (idleStep y) = beginnerMode y /\
  buttonPressedIndicator (idleStep y) = 0 /\
  transmitted y (idleStep y).
Proof.
  intros I V.
  pose proof (idle_move y V) as M. cbv zeta in M.
  assert (E : idleStep y
              = sendCommandFunction
                  (if atRest y
                   then set_motorControl2 deadStop2
                          (set_motorControl1 deadStop1 y)
                   else decelerateFunction y)).
  { unfold idleStep, bind. rewrite I. reflexivity. }
  rewrite E. clear E.
  generalize dependent (if atRest y
                        then set_motorControl2 deadStop2
                               (set_motorControl1 deadStop1 y)
                        else decelerateFunction y).
  intros z (D1 & D2 & B & J & S).
  assert (Vz : valid_commands z).
  { unfold valid_commands, decelerated, deadStop1, deadStop2, decelFactor in *.
    lia. }
  destruct (sendCommandFunction_commands z) as [C1 C2].
  rewrite (clampCommands_id z Vz) in C1, C2.
  pose proof (sendCommandFunction_transmitted z) as T.
  destruct (sendCommandFunction_shape z) as (a & b & m1 & m2 & F & _).
  rewrite C1, C2.
  split; [ exact D1 | split; [ exact D2 | ] ].
  split; [ rewrite F, <- B; reflexivity | ].
  split; [ rewrite F, <- I, <- J; reflexivity | ].
  unfold transmitted in *. rewrite <- S. exact T.
Qed.

Lemma idle_indicator i s :
  idle i s -> buttonPressedIndicator (polled i s) = 0.
Proof.
  intros [_ H]. destruct (polled_fields i s) as (_ & _ & _ & _ & ->).
  destruct (beginnerMode s); [ | reflexivity ].
  destruct H as [H | H]; [ discriminate | ].
  assert (C : buttonPressedIndicator s = 0 \/ buttonPressedIndicator s = 1)
    by lia.
  destruct C as [-> | ->]; reflexivity.
Qed.

(** An idle pass, field by field. *)
Lemma loop_idle i s :
  valid_commands s -> idle i s ->
  decelerated deadStop1 (motorControl1 s) (motorControl1 (loop i s)) /\
  decelerated deadStop2 (motorControl2 s) (motorControl2 (loop i s)) /\
  beginnerMode (loop i s) = beginnerMode s /\
  buttonPressedIndicator (loop i s) = 0 /\
  transmitted s (loop i s).
Proof.
  intros V H. pose proof (idle_indicator i s H) as I.
  destruct H as [L _].
  rewrite (loop_released i s (proj1 (firstLow_anyLow i) L)).
  destruct (released_fields i s) as (Y1 & Y2 & Y3 & Y4 & Y5).
  set (y := deriveSpeeds _) in *.
  assert (Vy : valid_commands y).
  { unfold valid_commands. rewrite Y1, Y2. exact V. }
  assert (Iy : buttonPressedIndicator y = 0) by (rewrite Y5; exact I).
  destruct (idleStep_fields y Iy Vy) as (D1 & D2 & B & J & T).
  rewrite Y1 in D1. rewrite Y2 in D2. rewrite Y4 in B.
  unfold transmitted in *. rewrite Y3 in T.
  exact (conj D1 (conj D2 (conj B (conj J T)))).
Qed.

Lemma idleStep_transmitted (y : State) :
  buttonPressedIndicator y = 0 -> transmitted y (idleStep y).
Proof.
  intros I. unfold idleStep, bind. rewrite I. cbn [Z.eqb].
  set (z := if atRest y then _ else _).
  assert (S : serial z = serial y).
  { subst z. destruct (atRest y); [ reflexivity | ].
    destruct (decelerateFunction_writes y) as (a' & b' & d' & ->).
    reflexivity. }
  pose proof (sendCommandFunction_transmitted z) as T.
  unfold transmitted in *. rewrite <- S. exact T.
Qed.

(** A latched pass neither moves the commands nor transmits. *)
Lemma loop_latched i s :
  0 <= buttonPressedIndicator s <= 255 ->
  latched i s = true ->
  loop i s = deriveSpeeds (set_buttonPinNumber 7 (polled i s)).
Proof.
  intros R L. unfold latched in L.
  apply andb_prop in L. destruct L as [L G].
  apply andb_prop in L. destruct L as [B L].
  apply negb_true_iff in L.
  rewrite (loop_released i s (proj1 (firstLow_anyLow i) L)).
  apply idleStep_skip.
  destruct (released_fields i s) as (_ & _ & _ & _ & ->).
  destruct (polled_fields i s) as (_ & _ & _ & _ & ->).
  rewrite B.
  destruct (buttonPressedIndicator s >? 0) eqn:P; [ | lia ].
  unfold to_byte. rewrite Z.mod_small; lia.
Qed.

(** A pass with a button held transmits once, after the state machine. *)
Lemma loop_pressed_transmitted i s p :
  firstLow i = Some p -> transmitted s (loop i s).
Proof.
  intros F. rewrite (loop_pressed i s p F).
  apply deriveSpeeds_transmitted.
  set (x := markPressed _).
  assert (S : serial x = serial s).
  { subst x.
    destruct (markPressed_fields (set_buttonPinNumber p (polled i s)))
      as (_ & _ & _ & -> & _).
    destruct (set_buttonPinNumber_fields p (polled i s))
      as (_ & _ & _ & _ & -> & _).
    apply polled_fields. }
  pose proof (buttonPressedFunction_transmitted p x) as T.
  unfold transmitted in *. rewrite <- S. exact T.
Qed.

(** A pass with no button held and the indicator at zero transmits once. *)
Lemma loop_idle_transmitted i s :
  anyLow i = false ->
  buttonPressedIndicator (polled i s) = 0 ->
  transmitted s (loop i s).
Proof.
  intros L I.
  rewrite (loop_released i s (proj1 (firstLow_anyLow i) L)).
  destruct (released_fields i s) as (_ & _ & Y3 & _ & Y5).
  set (y := deriveSpeeds _) in *.
  assert (Iy : buttonPressedIndicator y = 0) by (rewrite Y5; exact I).
  pose proof (idleStep_transmitted y Iy) as T.
  unfold transmitted in *. rewrite <- Y3. exact T.
Qed.

(** ** Invariants of the reachable states *)

Lemma loop_valid i s : valid_commands s -> valid_commands (loop i s).
Proof.
  intros V. destruct (anyLow i) eqn:L.
  - destruct (proj2 (firstLow_anyLow i) L) as (p & F & _).
    apply (loop_pressed_transmitted i s p F).
  - rewrite (loop_released i s (proj1 (firstLow_anyLow i) L)).
    destruct (released_fields i s) as (Y1 & Y2 & _).
    set (y := deriveSpeeds _) in *.
    unfold idleStep, bind.
    destruct (buttonPressedIndicator y =? 0).
    + apply sendCommandFunction_valid.
    + unfold valid_commands. rewrite Y1, Y2. exact V.
Qed.

Lemma loop_indicator_byte i s :
  0 <= buttonPressedIndicator s <= 255 ->
  0 <= buttonPressedIndicator (loop i s) <= 255.
Proof.
  intros R.
  assert (P : 0 <= buttonPressedIndicator (polled i s) <= 255).
  { destruct (polled_fields i s) as (_ & _ & _ & _ & ->).
    pose proof (Z.mod_pos_bound (buttonPressedIndicator s - 1) 256 eq_refl).
    unfold to_byte.
    destruct (beginnerMode s); [ | lia ].
    destruct (buttonPressedIndicator s >? 0); lia. }
  destruct (anyLow i) eqn:L.
  - destruct (proj2 (firstLow_anyLow i) L) as (p & F & _).
    rewrite (loop_pressed i s p F).
    set (x := markPressed _).
    assert (X : 0 <= buttonPressedIndicator x <= 255)
      by (subst x; apply markPressed_fields).
    destruct (deriveSpeeds_fields (buttonPressedFunction p x))
      as (_ & _ & _ & _ & ->).
    destruct (buttonPressedFunction_shape p x)
      as (a & b & d & m1 & m2 & -> & _).
    exact X.
  - rewrite (loop_released i s (proj1 (firstLow_anyLow i) L)).
    destruct (released_fields i s) as (_ & _ & _ & _ & Y5).
    set (y := deriveSpeeds _) in *.
    destruct (buttonPressedIndicator y =? 0) eqn:E.
    + assert (Iy : buttonPressedIndicator y = 0) by lia.
      unfold idleStep, bind. rewrite E.
      set (z := if atRest y then _ else _).
      assert (Z0 : buttonPressedIndicator z = 0).
      { subst z. destruct (atRest y); [ exact Iy | ].
        destruct (decelerateFunction_writes y) as (a' & b' & d' & ->).
        exact Iy. }
      destruct (sendCommandFunction_shape z) as (a & b & m1 & m2 & -> & _).
      change (0 <= buttonPressedIndicator z <= 255). lia.
    + rewrite idleStep_skip by lia. lia.
Qed.

(** Between two passes of [loop] the commands fit the wire protocol and
    the indicator is a byte. *)
Lemma reachable_valid (s : State) :
  reachable s ->
  valid_commands s /\ 0 <= buttonPressedIndicator s <= 255.
Proof.
  induction 1 as [pin12 | i s _ [V R]].
  - unfold valid_commands, setup. cbn. unfold deadStop1, deadStop2. lia.
  - split; [ apply loop_valid, V | apply loop_indicator_byte, R ].
Qed.

Section IterateFacts.

Variable body : Inputs -> State -> State.

Lemma iterate_cons i ticks s :
  iterate body (i :: ticks) s = iterate body ticks (body i s).
Proof. reflexivity. Qed.

End IterateFacts.

Lemma run_cons i ticks s : run (i :: ticks) s = run ticks (loop i s).
Proof. exact (iterate_cons loop i ticks s). Qed.

(** ** What the trim cannot reach *)

Lemma untrimmed_mk a b c d e f g h i j k l m n o p q r :
  untrimmed (mkState a b c d e f g h i j k l m n o p q r)
  = mkState a b 0 0 e f g h i j k 0 m n o p q [].
Proof. reflexivity. Qed.

Lemma trim_blind_intro (f : State -> State) :
  (forall s, untrimmed (f s) = untrimmed (f (untrimmed s))) ->
  trim_blind f f.
Proof.
  intros H s s' E. rewrite (H s), (H s'), E. reflexivity.
Qed.

(** Proves that a function gives the same result, up to what the trim
    reaches, on a state and on its blanked-out copy. *)
Ltac blind := apply trim_blind_intro; intros s; destruct s;
              rewrite untrimmed_mk; unfold_model; exec; reflexivity.

Lemma repairZero_blind : trim_blind repairZero repairZero.
Proof. blind. Qed.

Lemma accelerateForward_blind : trim_blind accelerateForward accelerateForward.
Proof. blind. Qed.

Lemma accelerateReverse_blind : trim_blind accelerateReverse accelerateReverse.
Proof. blind. Qed.

Lemma leftButtonPressed_blind : trim_blind leftButtonPressed leftButtonPressed.
Proof. blind. Qed.

Lemma rightButtonPressed_blind : trim_blind rightButtonPressed rightButtonPressed.
Proof. blind. Qed.

Lemma decelerateFunction_blind : trim_blind decelerateFunction decelerateFunction.
Proof. blind. Qed.

Lemma sendCommandFunction_blind : trim_blind sendCommandFunction sendCommandFunction.
Proof. blind. Qed.

Lemma deriveSpeeds_blind : trim_blind deriveSpeeds deriveSpeeds.
Proof. blind. Qed.

Lemma latchStep_blind : trim_blind latchStep latchStep.
Proof. blind. Qed.

Lemma untrimmed_fields (s s' : State) :
  untrimmed s = untrimmed s' ->
  motorControl1 s = motorControl1 s' /\
  motorControl2 s = motorControl2 s' /\
  buttonPressedIndicator s = buttonPressedIndicator s' /\
  beginnerMode s = beginnerMode s'.
Proof.
  destruct s, s'. rewrite !untrimmed_mk. intros E.
  injection E as -> -> -> -> -> -> -> -> -> -> -> -> -> ->.
  repeat split.
Qed.

Lemma stop_blind :
  trim_blind
    (fun s => set_motorControl2 deadStop2 (set_motorControl1 deadStop1 s))
    (fun s => set_motorControl2 deadStop2 (set_motorControl1 deadStop1 s)).
Proof. blind. Qed.

Lemma motionUpdate_blind pin : trim_blind (motionUpdate pin) (motionUpdate pin).
Proof.
  intros s s' E. unfold motionUpdate, bind.
  pose proof (repairZero_blind s s' E) as R.
  generalize dependent (repairZero s'). generalize dependent (repairZero s).
  intros r r' R.
  destruct (pin =? 2); [ exact (stop_blind r r' R) | ].
  destruct (pin =? 3); [ exact (accelerateForward_blind r r' R) | ].
  destruct (pin =? 4); [ exact (accelerateReverse_blind r r' R) | ].
  destruct (pin =? 5); [ exact (leftButtonPressed_blind r r' R) | ].
  destruct (pin =? 6); [ exact (rightButtonPressed_blind r r' R) | ].
  exact R.
Qed.

Lemma buttonPressedFunction_blind pin :
  trim_blind (buttonPressedFunction pin) (buttonPressedFunction pin).
Proof.
  intros s s' E. unfold buttonPressedFunction, bind.
  apply sendCommandFunction_blind, motionUpdate_blind, E.
Qed.

Lemma markPressed_blind : trim_blind markPressed markPressed.
Proof.
  apply trim_blind_intro; intros s; destruct s.
  rewrite untrimmed_mk. unfold markPressed. unfold_model. exec; reflexivity.
Qed.

Lemma set_buttonPinNumber_blind p :
  trim_blind (set_buttonPinNumber p) (set_buttonPinNumber p).
Proof. blind. Qed.

Lemma readPots_blind (i j : Inputs) :
  throttlePot i = throttlePot j -> trim_blind (readPots i) (readPots j).
Proof.
  intros T s s' E. destruct s, s'. rewrite !untrimmed_mk in E.
  injection E as -> -> -> -> -> -> -> -> -> -> -> -> -> ->.
  unfold_model. rewrite T. reflexivity.
Qed.

Lemma firstLow_ext (i j : Inputs) :
  (forall p, low i p = low j p) -> firstLow i = firstLow j.
Proof. intros H. unfold firstLow. rewrite !H. reflexivity. Qed.

Lemma poll_blind (i j : Inputs) :
  (forall p, low i p = low j p) ->
  trim_blind (fun s => pollBeginner i (pollNormal i s))
             (fun s => pollBeginner j (pollNormal j s)).
Proof.
  intros H s s' E. rewrite !poll_firstLow, (firstLow_ext i j H).
  destruct (firstLow j) as [p | ].
  - apply buttonPressedFunction_blind, markPressed_blind,
      set_buttonPinNumber_blind, E.
  - apply set_buttonPinNumber_blind, E.
Qed.

Lemma idleStep_blind : trim_blind idleStep idleStep.
Proof.
  intros s s' E. unfold idleStep, bind.
  destruct (untrimmed_fields s s' E) as (M1 & M2 & I & _).
  rewrite I. destruct (buttonPressedIndicator s' =? 0); [ | exact E ].
  apply sendCommandFunction_blind.
  unfold atRest. rewrite M1, M2.
  destruct (((motorControl1 s' =? 0) || (motorControl1 s' =? deadStop1))
            && ((motorControl2 s' =? 0) || (motorControl2 s' =? deadStop2))).
  - exact (stop_blind s s' E).
  - exact (decelerateFunction_blind s s' E).
Qed.

Lemma loop_blind (i j : Inputs) :
  same_but_trim i j -> trim_blind (loop i) (loop j).
Proof.
  intros [T L] s s' E. rewrite !loop_eq.
  apply idleStep_blind, deriveSpeeds_blind.
  apply (poll_blind i j L).
  unfold polled. apply latchStep_blind, (readPots_blind i j T), E.
Qed.

Lemma run_blind (ticks ticks' : list Inputs) :
  Forall2 same_but_trim ticks ticks' ->
  forall s s', untrimmed s = untrimmed s' ->
               untrimmed (run ticks s) = untrimmed (run ticks' s').
Proof.
  induction 1 as [ | i j ticks ticks' H _ IH]; intros s s' E.
  - exact E.
  - rewrite !run_cons. apply IH, (loop_blind i j H), E.
Qed.

(** * The claims *)

(** ** Emergency stop *)

Lemma estop_send (y : State) :
  buttonPinNumber y = 2 ->
  motorControl1 (buttonPressedFunction 2 y) = deadStop1 /\
  motorControl2 (buttonPressedFunction 2 y) = deadStop2 /\
  serial (buttonPressedFunction 2 y) = serial y ++ [deadStop1; deadStop2].
Proof.
  unfold buttonPressedFunction, bind.
  rewrite (proj1 (motionUpdate_pin y)).
  destruct (repairZero_writes y) as (a & b & d & ->).
  unfold with_commands. destruct y. unfold_model. intros P.
  exec; repeat split; try reflexivity; rewrite <- app_assoc; reflexivity.
Qed.

(** C7.  Whatever the state before the pass and whatever else is held,
    a pass of the loop on which the emergency-stop pin reads LOW leaves
    both persisted motor commands exactly on their centers, 64 and 192,
    and transmits exactly that pair. *)
Theorem emergency_stop_centers (i : Inputs) (s : State) :
  low i 2 = true ->
  motorControl1 (loop i s) = deadStop1 /\
  motorControl2 (loop i s) = deadStop2 /\
  serial (loop i s) = serial s ++ [deadStop1; deadStop2].
Proof.
  intros H.
  assert (F : firstLow i = Some 2) by (unfold firstLow; rewrite H; reflexivity).
  rewrite (loop_pressed i s 2 F).
  set (x := markPressed _).
  assert (P : buttonPinNumber x = 2).
  { subst x.
    destruct (markPressed_fields (set_buttonPinNumber 2 (polled i s)))
      as (_ & _ & _ & _ & -> & _).
    reflexivity. }
  assert (S : serial x = serial s).
  { subst x.
    destruct (markPressed_fields (set_buttonPinNumber 2 (polled i s)))
      as (_ & _ & _ & -> & _).
    destruct (set_buttonPinNumber_fields 2 (polled i s))
      as (_ & _ & _ & _ & -> & _).
    apply polled_fields. }
  destruct (deriveSpeeds_fields (buttonPressedFunction 2 x))
    as (-> & -> & -> & _).
  rewrite <- S. apply estop_send, P.
Qed.

Lemma emergency_stop_centers_witness :
  let i := mkInputs 1023 512 (fun _ => true) in
  let s := run [press 3 1023 512; press 3 1023 512] (setup false) in
  low i 2 = true /\
  motorControl1 s = 68 /\
  motorControl1 (loop i s) = deadStop1 /\
  motorControl2 (loop i s) = deadStop2 /\
  serial (loop i s) = serial s ++ [deadStop1; deadStop2].
Proof.
  intros i s.
  split; [ reflexivity | split; [ vm_compute; reflexivity | ] ].
  apply (emergency_stop_centers i s). reflexivity.
Defined.

(** ** Idle passes *)

(** One idle pass from a command of motor A on or above its center. *)
Lemma idle_step (i : Inputs) (s : State) :
  valid_commands s ->
  beginnerMode s = false \/ 0 <= buttonPressedIndicator s <= 1 ->
  anyLow i = false ->
  deadStop1 <= motorControl1 s ->
  valid_commands (loop i s) /\
  (beginnerMode (loop i s) = false \/
   0 <= buttonPressedIndicator (loop i s) <= 1) /\
  deadStop1 <= motorControl1 (loop i s) /\
  motorControl1 (loop i s) = Z.max deadStop1 (motorControl1 s - decelFactor).
Proof.
  intros V M Li C.
  destruct (loop_idle i s V (conj Li M)) as ((D1 & _ & D3) & _ & B & I & _).
  split; [ apply loop_valid, V | ].
  split; [ right; rewrite I; lia | ].
  generalize dependent (motorControl1 (loop i s)).
  generalize dependent (motorControl1 s).
  unfold deadStop1, decelFactor. intros. lia.
Qed.

Lemma idle_run (ticks : list Inputs) :
  forall s,
    valid_commands s ->
    beginnerMode s = false \/ 0 <= buttonPressedIndicator s <= 1 ->
    Forall (fun j => anyLow j = false) ticks ->
    deadStop1 <= motorControl1 s ->
    motorControl1 (run ticks s)
    = Z.max deadStop1
        (motorControl1 s - decelFactor * Z.of_nat (length ticks)).
Proof.
  induction ticks as [ | i ticks IH]; intros s V M L C.
  - change (run [] s) with s. cbn [length].
    generalize dependent (motorControl1 s).
    unfold deadStop1, decelFactor. intros. lia.
  - inversion L as [ | ? ? Li Lt]; subst.
    destruct (idle_step i s V M Li C) as (V' & M' & C' & E).
    rewrite run_cons, (IH (loop i s) V' M' Lt C'), E.
    generalize dependent (motorControl1 s).
    rewrite length_cons, Nat2Z.inj_succ.
    pose proof (Nat2Z.is_nonneg (length ticks)) as N.
    generalize dependent (Z.of_nat (length ticks)).
    unfold deadStop1, decelFactor. intros. lia.
Qed.

(** Every idle pass the sketch can actually make decelerates both
    motors. *)
Corollary reachable_idle_pass (i : Inputs) (s : State) :
  reachable s ->
  idle i s ->
  decelerated deadStop1 (motorControl1 s) (motorControl1 (loop i s)) /\
  decelerated deadStop2 (motorControl2 s) (motorControl2 (loop i s)).
Proof.
  intros R H.
  destruct (loop_idle i s (proj1 (reachable_valid s R)) H) as (D1 & D2 & _).
  exact (conj D1 D2).
Qed.

(** C8.  On an idle pass (no button held, and no latch pending) from a
    state whose commands fit the wire protocol, each motor's persisted
    command moves toward its own center by exactly the decel increment,
    and a step that would pass the center stops exactly on it; a command
    on its center stays there.  In particular, from motor A at 100 the
    command after [n] idle passes is [max 64 (100 - 4 n)]: 100, 96, 92,
    ..., 68, 64, and 64 from then on. *)
Theorem idle_tick_decelerates (i : Inputs) (s : State) :
  valid_commands s ->
  idle i s ->
  decelerated deadStop1 (motorControl1 s) (motorControl1 (loop i s)) /\
  decelerated deadStop2 (motorControl2 s) (motorControl2 (loop i s)) /\
  (motorControl1 s = 100 ->
   forall ticks,
     Forall (fun j => anyLow j = false) ticks ->
     motorControl1 (run ticks s)
     = Z.max 64 (100 - 4 * Z.of_nat (length ticks))).
Proof.
  intros V H.
  destruct (loop_idle i s V H) as (D1 & D2 & _).
  split; [ exact D1 | split; [ exact D2 | ] ].
  intros C ticks L.
  rewrite (idle_run ticks s V (proj2 H) L).
  - rewrite C. reflexivity.
  - rewrite C. unfold deadStop1. lia.
Qed.

Lemma idle_tick_decelerates_witness :
  let i := press 0 1023 512 in
  let s := run (repeat (press 3 1023 512) 18) (setup false) in
  motorControl1 s = 100 /\
  motorControl2 s = 228 /\
  motorControl1 (loop i s) = 96 /\
  motorControl2 (loop i s) = 224 /\
  motorControl1 (run (repeat i 9) s) = 64 /\
  motorControl1 (run (repeat i 20) s) = 64.
Proof.
  intros i s.
  assert (V : valid_commands s)
    by (unfold valid_commands; vm_compute; repeat split; discriminate).
  assert (H : idle i s)
    by (split; [ reflexivity | left; vm_compute; reflexivity ]).
  destruct (idle_tick_decelerates i s V H) as ((D1 & _) & (D2 & _) & R).
  assert (C1 : motorControl1 s = 100) by (vm_compute; reflexivity).
  assert (C2 : motorControl2 s = 228) by (vm_compute; reflexivity).
  split; [ exact C1 | split; [ exact C2 | ] ].
  split; [ rewrite D1; [ rewrite C1; reflexivity | rewrite C1; reflexivity ] | ].
  split; [ rewrite D2; [ rewrite C2; reflexivity | rewrite C2; reflexivity ] | ].
  assert (L : forall n, Forall (fun j => anyLow j = false) (repeat i n)).
  { intros n. induction n; constructor; [ reflexivity | assumption ]. }
  split; rewrite (R C1 _ (L _)); reflexivity.
Defined.

(** ** One command pair per pass *)

(** C6, counterexample.  Beginner mode, forward tapped once and released:
    on the next pass no button is held and the latch counter is still
    positive, and that pass transmits nothing; the serial port holds the
    same bytes before and after, so no byte pair was sent. *)
Lemma latched_pass_transmits_nothing :
  let s := run [press 3 1023 512] (setup true) in
  let i := press 0 1023 512 in
  beginnerMode s = true /\
  buttonPressedIndicator s = 15 /\
  anyLow i = false /\
  serial (loop i s) = serial s /\
  ~ (exists b1 b2, serial (loop i s) = serial s ++ [b1; b2]).
Proof.
  vm_compute. repeat split. intros (b1 & b2 & H). discriminate H.
Qed.

(** C6, as amended.  A pass of the loop runs the encoder at most once.
    On a beginner-mode pass with no button held and the latch counter
    still positive after its decrement, neither the state machine nor the
    encoder runs: nothing is transmitted and both commands keep their
    values.  On every other pass exactly one byte pair is appended to the
    serial port, and it is encoded from the commands that the pass leaves
    behind, that is, after the state-machine update: each byte is the
    persisted command, or that command moved by the trim. *)
Theorem pass_transmits_at_most_once (i : Inputs) (s : State) :
  0 <= buttonPressedIndicator s <= 255 ->
  (latched i s = true ->
   serial (loop i s) = serial s /\
   motorControl1 (loop i s) = motorControl1 s /\
   motorControl2 (loop i s) = motorControl2 s) /\
  (latched i s = false -> transmitted s (loop i s)).
Proof.
  intros R. split; intros L.
  - rewrite (loop_latched i s R L).
    destruct (released_fields i s) as (-> & -> & -> & _).
    repeat split.
  - destruct (anyLow i) eqn:A.
    + destruct (proj2 (firstLow_anyLow i) A) as (p & F & _).
      exact (loop_pressed_transmitted i s p F).
    + apply (loop_idle_transmitted i s A).
      destruct (polled_fields i s) as (_ & _ & _ & _ & ->).
      unfold latched in L. rewrite A in L. cbn [negb] in L.
      rewrite andb_true_r in L.
      apply andb_false_iff in L.
      destruct (beginnerMode s); [ | reflexivity ].
      destruct L as [L | L]; [ discriminate | ].
      assert (C : buttonPressedIndicator s = 0 \/ buttonPressedIndicator s = 1)
        by lia.
      destruct C as [-> | ->]; reflexivity.
Qed.

Lemma pass_transmits_at_most_once_witness :
  let s := run [press 3 1023 512] (setup true) in
  let i := press 0 1023 512 in
  0 <= buttonPressedIndicator s <= 255 /\
  latched i s = true /\
  serial (loop i s) = serial s /\
  motorControl1 (loop i s) = motorControl1 s /\
  motorControl2 (loop i s) = motorControl2 s.
Proof.
  intros s i.
  assert (R : 0 <= buttonPressedIndicator s <= 255)
    by (vm_compute; split; discriminate).
  assert (L : latched i s = true) by (vm_compute; reflexivity).
  split; [ exact R | split; [ exact L | ] ].
  exact (proj1 (pass_transmits_at_most_once i s R) L).
Defined.

(** ** Trim and the persisted commands *)

(** C9.  The trim block of Send Command writes the two emitted bytes only:
    both persisted motor commands are the same before and after it, for
    every state and every trim value; hence the commands that Send Command
    leaves behind are the clamped commands, whatever the trim.  Nothing of
    the trim is carried from one tick to the next: two runs of the loop
    from the same state, on pin readings that differ only in the trim pot,
    end with the same two persisted commands. *)
Theorem trim_leaves_commands (s : State) (t : Z) :
  motorControl1 (trimCorrection s) = motorControl1 s /\
  motorControl2 (trimCorrection s) = motorControl2 s /\
  motorControl1 (sendCommandFunction (set_trimAdjustment t s))
    = motorControl1 (clampCommands s) /\
  motorControl2 (sendCommandFunction (set_trimAdjustment t s))
    = motorControl2 (clampCommands s) /\
  (forall ticks ticks',
     Forall2 same_but_trim ticks ticks' ->
     motorControl1 (run ticks s) = motorControl1 (run ticks' s) /\
     motorControl2 (run ticks s) = motorControl2 (run ticks' s)).
Proof.
  split; [ by_cases s; reflexivity | ].
  split; [ by_cases s; reflexivity | ].
  destruct (sendCommandFunction_commands (set_trimAdjustment t s)) as [-> ->].
  split; [ by_cases s; reflexivity | ].
  split; [ by_cases s; reflexivity | ].
  intros ticks ticks' H.
  pose proof (run_blind ticks ticks' H s s eq_refl) as E.
  destruct (untrimmed_fields _ _ E) as (E1 & E2 & _).
  split; assumption.
Qed.

Lemma trim_leaves_commands_witness :
  let s := setup false in
  let ticks := [press 3 1023 0; press 3 1023 0; press 0 1023 0] in
  let ticks' := [press 3 1023 1023; press 3 1023 512; press 0 1023 1023] in
  Forall2 same_but_trim ticks ticks' /\
  motorControl1 (run ticks s) = motorControl1 (run ticks' s) /\
  motorControl2 (run ticks s) = motorControl2 (run ticks' s) /\
  motorControl1 (run ticks s) = 64.
Proof.
  intros s ticks ticks'.
  assert (H : Forall2 same_but_trim ticks ticks').
  { repeat constructor. }
  destruct (trim_leaves_commands s 0) as (_ & _ & _ & _ & R).
  destruct (R ticks ticks' H) as [R1 R2].
  split; [ exact H | split; [ exact R1 | split; [ exact R2 | ] ] ].
  vm_compute. reflexivity.
Defined.

(** ** Direction encodings *)

Lemma deriveSpeeds_directions (s : State) :
  atRest s = false ->
  (direction1 (deriveSpeeds s) = 49 <-> deadStop1 <= motorControl1 s) /\
  (direction1 (deriveSpeeds s) = 48 <-> motorControl1 s < deadStop1) /\
  (direction2 (deriveSpeeds s) = 49 <-> deadStop2 <= motorControl2 s) /\
  (direction2 (deriveSpeeds s) = 0 <-> motorControl2 s < deadStop2).
Proof.
  destruct s. unfold_model. exec; intros R; try discriminate;
    change (chr "1") with 49; change (chr "0") with 48; lia.
Qed.

(** C10.  When both commands lie strictly below their centers (and are
    not both the zero placeholder, which no pass leaves behind), the speed
    derivation stores the character '0', that is 48, in [direction1] but
    the integer 0 in [direction2]: the two directions differ.  Any state
    that carries these directions with equal raw speeds is therefore
    handled by the left and right button functions in their
    directions-differ branch (both motors step), not in the
    moving-straight branch. *)
Theorem reverse_directions_differ (s t : State) :
  motorControl1 s < deadStop1 ->
  motorControl2 s < deadStop2 ->
  ~ (motorControl1 s = 0 /\ motorControl2 s = 0) ->
  direction1 (deriveSpeeds s) = 48 /\
  direction2 (deriveSpeeds s) = 0 /\
  direction1 (deriveSpeeds s) <> direction2 (deriveSpeeds s) /\
  (direction1 t = direction1 (deriveSpeeds s) ->
   direction2 t = direction2 (deriveSpeeds s) ->
   rawSpeed1 t = rawSpeed2 t ->
   leftButtonPressed t = leftPivotStep t /\
   rightButtonPressed t = rightPivotStep t).
Proof.
  assert (R : motorControl1 s < deadStop1 -> motorControl2 s < deadStop2 ->
              ~ (motorControl1 s = 0 /\ motorControl2 s = 0) ->
              atRest s = false).
  { destruct s; unfold_model; intros; exec; lia. }
  intros H1 H2 H0. specialize (R H1 H2 H0).
  destruct (deriveSpeeds_directions s R) as (_ & D1 & _ & D2).
  apply D1 in H1. apply D2 in H2. rewrite H1, H2.
  split; [ reflexivity | split; [ reflexivity | split; [ discriminate | ] ] ].
  intros E1 E2 ER. split.
  - unfold leftButtonPressed. rewrite ER, E1, E2, Z.eqb_refl. reflexivity.
  - unfold rightButtonPressed. rewrite ER, E1, E2, Z.eqb_refl. reflexivity.
Qed.

Lemma reverse_directions_differ_witness :
  let s := run [press 4 1023 512; press 4 1023 512] (setup false) in
  motorControl1 s = 60 /\ motorControl2 s = 188 /\
  direction1 s = 48 /\ direction2 s = 0 /\
  leftButtonPressed s = leftPivotStep s /\
  rightButtonPressed s = rightPivotStep s.
Proof.
  intros s.
  assert (C1 : motorControl1 s = 60) by (vm_compute; reflexivity).
  assert (C2 : motorControl2 s = 188) by (vm_compute; reflexivity).
  assert (H1 : motorControl1 s < deadStop1) by (rewrite C1; reflexivity).
  assert (H2 : motorControl2 s < deadStop2) by (rewrite C2; reflexivity).
  assert (H0 : ~ (motorControl1 s = 0 /\ motorControl2 s = 0))
    by (rewrite C1; intros [H _]; discriminate H).
  destruct (reverse_directions_differ s s H1 H2 H0) as (D1 & D2 & _ & B).
  split; [ exact C1 | split; [ exact C2 | ] ].
  assert (E1 : direction1 s = 48) by (vm_compute; reflexivity).
  assert (E2 : direction2 s = 0) by (vm_compute; reflexivity).
  split; [ exact E1 | split; [ exact E2 | ] ].
  apply B.
  - rewrite D1. exact E1.
  - rewrite D2. exact E2.
  - vm_compute. reflexivity.
Defined.

(** ** The dead spot *)

(** Forward's convergence correction of motor A is no ramp step. *)
Lemma snap_is_no_step (s : State) :
  snapsMotor1 s -> stepsMotor1 3 s = false.
Proof.
  unfold stepsMotor1, headroom1, headroom2, snapsMotor1.
  change (3 =? 3) with true. cbv iota.
  destruct s; unfold_model; intros; exec; solve [ reflexivity | lia ].
Qed.

Section DeadSpot.

Variable s : State.
Hypothesis Hb : bounds_off_center s.

Lemma forward_dead_spot :
  (motorControl1 (accelerateForward s) = deadStop1 ->
     (motorControl1 s = deadStop1 /\ stepsMotor1 3 s = false) \/
     (motorControl1 s = deadStop1 - 1 /\ snapsMotor1 s)) /\
  (motorControl2 (accelerateForward s) = deadStop2 ->
     motorControl2 s = deadStop2 /\ stepsMotor2 3 s = false) /\
  (stepsMotor1 3 s = false -> ~ snapsMotor1 s ->
     motorControl1 (accelerateForward s) = motorControl1 s) /\
  (stepsMotor2 3 s = false ->
     motorControl2 (accelerateForward s) = motorControl2 s).
Proof.
  revert Hb.
  unfold stepsMotor1, stepsMotor2, headroom1, headroom2, bounds_off_center,
    snapsMotor1.
  change (3 =? 3) with true. cbv iota.
  destruct s; unfold_model; intros; exec; lia.
Qed.

Lemma reverse_dead_spot :
  (motorControl1 (accelerateReverse s) = deadStop1 ->
     motorControl1 s = deadStop1 /\ stepsMotor1 4 s = false) /\
  (motorControl2 (accelerateReverse s) = deadStop2 ->
     motorControl2 s = deadStop2 /\ stepsMotor2 4 s = false) /\
  (stepsMotor1 4 s = false ->
     motorControl1 (accelerateReverse s) = motorControl1 s) /\
  (stepsMotor2 4 s = false ->
     motorControl2 (accelerateReverse s) = motorControl2 s).
Proof.
  revert Hb.
  unfold stepsMotor1, stepsMotor2, headroom1, headroom2, bounds_off_center.
  change (4 =? 3) with false. change (4 =? 4) with true. cbv iota.
  destruct s; unfold_model; intros; exec; lia.
Qed.

Lemma left_dead_spot :
  (motorControl1 (leftButtonPressed s) = deadStop1 ->
     motorControl1 s = deadStop1 /\ stepsMotor1 5 s = false) /\
  (motorControl2 (leftButtonPressed s) = deadStop2 ->
     motorControl2 s = deadStop2 /\ stepsMotor2 5 s = false) /\
  (stepsMotor1 5 s = false ->
     motorControl1 (leftButtonPressed s) = motorControl1 s) /\
  (stepsMotor2 5 s = false ->
     motorControl2 (leftButtonPressed s) = motorControl2 s).
Proof.
  revert Hb.
  unfold stepsMotor1, stepsMotor2, pivots, bounds_off_center.
  change (5 =? 3) with false. change (5 =? 4) with false.
  change (5 =? 5) with true. cbv iota.
  destruct s; unfold_model; intros; exec; lia.
Qed.

Lemma right_dead_spot :
  (motorControl1 (rightButtonPressed s) = deadStop1 ->
     motorControl1 s = deadStop1 /\ stepsMotor1 6 s = false) /\
  (motorControl2 (rightButtonPressed s) = deadStop2 ->
     motorControl2 s = deadStop2 /\ stepsMotor2 6 s = false) /\
  (stepsMotor1 6 s = false ->
     motorControl1 (rightButtonPressed s) = motorControl1 s) /\
  (stepsMotor2 6 s = false ->
     motorControl2 (rightButtonPressed s) = motorControl2 s).
Proof.
  revert Hb.
  unfold stepsMotor1, stepsMotor2, pivots, bounds_off_center.
  change (6 =? 3) with false. change (6 =? 4) with false.
  change (6 =? 5) with false. change (6 =? 6) with true. cbv iota.
  destruct s; unfold_model; intros; exec; lia.
Qed.

End DeadSpot.




(** ** Reverse against Forward *)




(** ** Where the code departs from the claims *)

Lemma reachable_run (ticks : list Inputs) :
  forall s, reachable s -> reachable (run ticks s).
Proof.
  induction ticks as [ | i ticks IH]; intros s R.
  - exact R.
  - rewrite run_cons. apply IH, reach_loop, R.
Qed.

(** C1.  The clamp of Send Command keeps the persisted commands inside
    [1,127] and [128,255], but the trim is added after it and the bytes
    that go out can leave those ranges.  Full reverse (commands 1 and 128,
    reached by 32 reverse passes at full throttle), then forward: with the
    trim pot at 0 (trim -6) motor A's byte is 1 - 6 stored in a byte, 251;
    with the trim pot at 1023 (trim +6) motor B's byte is 131 - 6 = 125. *)
Theorem trimmed_bytes_leave_wire_range :
  let s := run (repeat (press 4 1023 512) 32) (setup false) in
  reachable s /\
  motorControl1 s = 1 /\ motorControl2 s = 128 /\
  serial (loop (press 3 1023 0) s) = serial s ++ [251; 131] /\
  ~ wire1 251 /\
  valid_commands (loop (press 3 1023 0) s) /\
  serial (loop (press 3 1023 1023) s) = serial s ++ [1; 125] /\
  ~ wire2 125.
Proof.
  intros s.
  split; [ apply reachable_run, reach_setup | ].
  split; [ vm_compute; reflexivity | ].
  split; [ vm_compute; reflexivity | ].
  split; [ vm_compute; reflexivity | ].
  split; [ unfold wire1; lia | ].
  split; [ apply loop_valid, reachable_valid, reachable_run, reach_setup | ].
  split; [ vm_compute; reflexivity | ].
  unfold wire2; lia.
Qed.

(** C2.  In the left button function, the branch for [rawSpeed1 >
    rawSpeed2] steps motor B toward forward and, on overspeed, stores the
    reverse floor [maxRevSpeed2] where every sibling branch stores the
    forward ceiling.  Throttle pot at 33 (ceilings 67 and 195, floors 61
    and 189): after one reverse and one left pass motor B stands at 194;
    the next left pass steps it to 196, above the ceiling, and leaves it
    at 189, on the other side of its center.  At full throttle the same
    branch takes motor B from 254 to 128, full reverse.  The first branch
    of the right button function has no clamp at all: two right passes at
    throttle pot 33 leave 68 and 188, outside both bounds. *)
Theorem left_pivot_clamps_to_reverse_floor :
  (let s := run [press 4 33 512; press 5 33 512] (setup false) in
   let x := markPressed (set_buttonPinNumber 5 (polled (press 5 33 512) s)) in
   reachable s /\
   motorControl2 x = 194 /\ maxFwdSpeed2 x = 195 /\ maxRevSpeed2 x = 189 /\
   rawSpeed1 x = 3 /\ rawSpeed2 x = 2 /\
   motorControl2 (leftButtonPressed x) = 189 /\
   motorControl2 (loop (press 5 33 512) s) = 189) /\
  (let s := run (repeat (press 4 1023 512) 31 ++ repeat (press 5 1023 512) 61)
                (setup false) in
   reachable s /\
   motorControl2 s = 254 /\
   motorControl2 (loop (press 5 1023 512) s) = 128) /\
  (let s := run [press 6 33 512; press 6 33 512] (setup false) in
   reachable s /\
   motorControl1 s = 68 /\ maxFwdSpeed1 s = 67 /\
   motorControl2 s = 188 /\ maxRevSpeed2 s = 189).
Proof.
  split; [ | split ]; intros s.
  - intros x. split; [ apply reachable_run, reach_setup | ].
    vm_compute. repeat split.
  - split; [ apply reachable_run, reach_setup | ].
    vm_compute. repeat split.
  - split; [ apply reachable_run, reach_setup | ].
    vm_compute. repeat split.
Qed.

(** C4.  The guard of the trim block tests [rawSpeed1] only, and
    [rawSpeed1] is derived after the buttons are served, so the encoder
    sees motor A's magnitude of the previous pass.  First: full forward
    (127 and 255), then the throttle pot drops to 0 with the trim pot at 0
    (trim -6); forward is governed down to 65 and 193, magnitude 1, but the
    guard still reads 63 and motor A's byte goes out as 59, below its
    center.  Second: four right passes and three forward passes leave 72
    and 190; the next forward pass, trim pot at 1023 (trim +6), steps
    motor B to 194, magnitude 2, and the guard reads motor A's 8: motor
    B's byte goes out as 188, below its center. *)
Theorem trim_crosses_center :
  (let s := run (repeat (press 3 1023 512) 32) (setup false) in
   let s' := loop (press 3 0 0) s in
   reachable s /\
   rawSpeed1 s = 63 /\ trimAdjustment s' = -6 /\
   motorControl1 s' = 65 /\ rawSpeed1 s' = 1 /\
   motorByte1 s' = 59 /\
   serial s' = serial s ++ [59; 193]) /\
  (let s := run (repeat (press 6 1023 512) 4 ++ repeat (press 3 1023 512) 3)
                (setup false) in
   let s' := loop (press 3 1023 1023) s in
   reachable s /\
   rawSpeed1 s = 8 /\ trimAdjustment s' = 6 /\
   motorControl2 s' = 194 /\ rawSpeed2 s' = 2 /\
   motorByte2 s' = 188 /\
   serial s' = serial s ++ [72; 188]).
Proof.
  split; intros s s'.
  - split; [ apply reachable_run, reach_setup | ].
    vm_compute. repeat split.
  - split; [ apply reachable_run, reach_setup | ].
    vm_compute. repeat split.
Qed.

(** * Further properties of the sketch *)

(** ** The governor *)

Lemma to_byte_small (z : Z) : 0 <= z <= 255 -> to_byte z = z.
Proof. intros H. unfold to_byte. apply Z.mod_small. lia. Qed.

Lemma held_throughout {A : Type} (P : A -> Prop) (x : A) (n : nat) :
  P x -> Forall P (repeat x n).
Proof. intros H. induction n; constructor; assumption. Qed.

(** The four interpolations of a throttle reading fit a byte, leave the
    dead stops out, and place motor B's ceiling 128 above motor A's. *)
Lemma governor_values (p : Z) :
  0 <= p <= 1023 ->
  1 <= revFloor1 p <= 63 /\
  65 <= fwdCeiling1 p <= 127 /\
  128 <= revFloor2 p <= 191 /\
  193 <= fwdCeiling2 p <= 255 /\
  fwdCeiling2 p = fwdCeiling1 p + 128 /\
  127 <= revFloor2 p - revFloor1 p <= 128.
Proof.
  intros H.
  assert (M : 1 <= map p 0 1023 63 1 <= 63 /\
              65 <= map p 0 1023 65 127 <= 127 /\
              128 <= map p 0 1023 191 128 <= 191 /\
              193 <= map p 0 1023 193 255 <= 255 /\
              map p 0 1023 193 255 = map p 0 1023 65 127 + 128 /\
              127 <= map p 0 1023 191 128 - map p 0 1023 63 1 <= 128).
  { unfold map.
    change (1 - 63) with (-62). change (127 - 65) with 62.
    change (128 - 191) with (-63). change (255 - 193) with 62.
    change (1023 - 0) with 1023. rewrite !Z.sub_0_r.
    Z.to_euclidean_division_equations. lia. }
  unfold revFloor1, revFloor2, fwdCeiling1, fwdCeiling2.
  rewrite !to_byte_small by lia. exact M.
Qed.

Lemma governor_values_monotone (p q : Z) :
  0 <= p <= q -> q <= 1023 ->
  fwdCeiling1 p <= fwdCeiling1 q /\ fwdCeiling2 p <= fwdCeiling2 q /\
  revFloor1 q <= revFloor1 p /\ revFloor2 q <= revFloor2 p.
Proof.
  intros Hp Hq.
  assert (M : map p 0 1023 65 127 <= map q 0 1023 65 127 /\
              map p 0 1023 193 255 <= map q 0 1023 193 255 /\
              map q 0 1023 63 1 <= map p 0 1023 63 1 /\
              map q 0 1023 191 128 <= map p 0 1023 191 128 /\
              0 <= map p 0 1023 65 127 <= 255 /\
              0 <= map q 0 1023 65 127 <= 255 /\
              0 <= map p 0 1023 193 255 <= 255 /\
              0 <= map q 0 1023 193 255 <= 255 /\
              0 <= map p 0 1023 63 1 <= 255 /\
              0 <= map q 0 1023 63 1 <= 255 /\
              0 <= map p 0 1023 191 128 <= 255 /\
              0 <= map q 0 1023 191 128 <= 255).
  { unfold map.
    change (1 - 63) with (-62). change (127 - 65) with 62.
    change (128 - 191) with (-63). change (255 - 193) with 62.
    change (1023 - 0) with 1023. rewrite !Z.sub_0_r.
    Z.to_euclidean_division_equations. lia. }
  unfold revFloor1, revFloor2, fwdCeiling1, fwdCeiling2.
  rewrite !to_byte_small by lia. lia.
Qed.

Lemma trimOf_range (pot : Z) :
  0 <= pot <= 1023 -> - trimSens <= trimOf pot <= trimSens.
Proof.
  intros H. unfold trimOf, map, trimSens. change (6 - -1 * 6) with 12.
  change (1023 - 0) with 1023. rewrite Z.sub_0_r.
  change (-1 * 6) with (-6).
  Z.to_euclidean_division_equations. lia.
Qed.

Lemma trimOf_centre (pot : Z) : 512 <= pot <= 596 -> trimOf pot = 0.
Proof.
  intros H. unfold trimOf, map, trimSens. change (6 - -1 * 6) with 12.
  change (1023 - 0) with 1023. rewrite Z.sub_0_r.
  change (-1 * 6) with (-6).
  Z.to_euclidean_division_equations. lia.
Qed.

(** Nothing after the two pot reads writes the bounds or the trim. *)
Lemma writes_commands_pots (f : State -> State) (s : State) :
  writes_commands f ->
  pots (f s) = pots s /\ trimInputs (f s) = trimInputs s /\
  serial (f s) = serial s.
Proof. intros F. destruct (F s) as (a & b & d & ->). repeat split. Qed.

Lemma sendCommandFunction_pots (s : State) :
  pots (sendCommandFunction s) = pots s.
Proof.
  destruct (sendCommandFunction_shape s) as (a & b & m1 & m2 & -> & _).
  reflexivity.
Qed.

Lemma deriveSpeeds_pots (s : State) : pots (deriveSpeeds s) = pots s.
Proof.
  destruct (deriveSpeeds_shape s) as (r1 & r2 & d1 & d2 & ->). reflexivity.
Qed.

Lemma idleStep_pots (s : State) : pots (idleStep s) = pots s.
Proof.
  unfold idleStep, bind.
  destruct (buttonPressedIndicator s =? 0); [ | reflexivity ].
  rewrite sendCommandFunction_pots.
  destruct (atRest s); [ reflexivity | ].
  apply writes_commands_pots, decelerateFunction_writes.
Qed.

Lemma polled_pots (i : Inputs) (s : State) :
  pots (polled i s)
  = (revFloor1 (throttlePot i), fwdCeiling1 (throttlePot i),
     revFloor2 (throttlePot i), fwdCeiling2 (throttlePot i),
     trimOf (trimPot i)).
Proof.
  unfold polled, revFloor1, revFloor2, fwdCeiling1, fwdCeiling2, trimOf, pots.
  destruct s; unfold_model; exec; reflexivity.
Qed.

Lemma markPressed_pots (s : State) : pots (markPressed s) = pots s.
Proof. unfold markPressed. destruct (beginnerMode s); reflexivity. Qed.

Lemma loop_pots (i : Inputs) (s : State) :
  pots (loop i s)
  = (revFloor1 (throttlePot i), fwdCeiling1 (throttlePot i),
     revFloor2 (throttlePot i), fwdCeiling2 (throttlePot i),
     trimOf (trimPot i)).
Proof.
  rewrite <- (polled_pots i s), loop_eq, poll_firstLow.
  generalize (polled i s). intros q.
  rewrite idleStep_pots, deriveSpeeds_pots.
  destruct (firstLow i) as [p | ]; [ | reflexivity ].
  unfold buttonPressedFunction, bind.
  rewrite sendCommandFunction_pots.
  rewrite (proj1 (writes_commands_pots _ _ (motionUpdate_writes p))).
  rewrite markPressed_pots. reflexivity.
Qed.

(** X1.  Whatever the state and the buttons, a pass whose two pot
    readings are in the range of [analogRead] leaves governor bounds that
    exclude the dead stops and fit the wire ranges: reverse floors in
    [1,63] and [128,191], forward ceilings in [65,127] and [193,255].
    Motor B's ceiling is motor A's plus 128, motor B's floor is motor A's
    plus 127 or 128, and the trim adjustment lies within the trim
    sensitivity on either side of zero. *)
Theorem governor_bounds (i : Inputs) (s : State) :
  0 <= throttlePot i <= 1023 ->
  0 <= trimPot i <= 1023 ->
  1 <= maxRevSpeed1 (loop i s) <= 63 /\
  65 <= maxFwdSpeed1 (loop i s) <= 127 /\
  128 <= maxRevSpeed2 (loop i s) <= 191 /\
  193 <= maxFwdSpeed2 (loop i s) <= 255 /\
  maxFwdSpeed2 (loop i s) = maxFwdSpeed1 (loop i s) + 128 /\
  127 <= maxRevSpeed2 (loop i s) - maxRevSpeed1 (loop i s) <= 128 /\
  - trimSens <= trimAdjustment (loop i s) <= trimSens.
Proof.
  intros Ht Hr. pose proof (loop_pots i s) as P. unfold pots in P.
  injection P as -> -> -> -> ->.
  destruct (governor_values _ Ht) as (A & B & C & D & E & F).
  pose proof (trimOf_range _ Hr).
  repeat split; lia.
Qed.

Lemma governor_bounds_witness :
  let i := press 5 700 300 in
  let s := run [press 3 1023 512; press 6 0 0] (setup false) in
  65 <= maxFwdSpeed1 (loop i s) <= 127 /\
  maxFwdSpeed2 (loop i s) = maxFwdSpeed1 (loop i s) + 128 /\
  - trimSens <= trimAdjustment (loop i s) <= trimSens.
Proof.
  intros i s.
  assert (Ht : 0 <= throttlePot i <= 1023) by (cbn; lia).
  assert (Hr : 0 <= trimPot i <= 1023) by (cbn; lia).
  destruct (governor_bounds i s Ht Hr) as (_ & B & _ & _ & E & _ & T).
  exact (conj B (conj E T)).
Defined.

(** X2.  The governor is monotone in the throttle: of two passes, the
    one that reads the higher throttle pot leaves forward ceilings at
    least as high and reverse floors at least as low, for both motors,
    whatever the two states and the buttons. *)
Theorem governor_monotone (i j : Inputs) (s t : State) :
  0 <= throttlePot i <= throttlePot j ->
  throttlePot j <= 1023 ->
  maxFwdSpeed1 (loop i s) <= maxFwdSpeed1 (loop j t) /\
  maxFwdSpeed2 (loop i s) <= maxFwdSpeed2 (loop j t) /\
  maxRevSpeed1 (loop j t) <= maxRevSpeed1 (loop i s) /\
  maxRevSpeed2 (loop j t) <= maxRevSpeed2 (loop i s).
Proof.
  intros Hi Hj.
  pose proof (loop_pots i s) as P. unfold pots in P.
  injection P as -> -> -> -> _.
  pose proof (loop_pots j t) as P. unfold pots in P.
  injection P as -> -> -> -> _.
  destruct (governor_values_monotone _ _ Hi Hj) as (A & B & C & D).
  repeat split; assumption.
Qed.

Lemma governor_monotone_witness :
  let i := press 3 200 512 in
  let j := press 4 900 512 in
  maxFwdSpeed1 (loop i (setup false)) <= maxFwdSpeed1 (loop j (setup true)) /\
  maxRevSpeed2 (loop j (setup true)) <= maxRevSpeed2 (loop i (setup false)).
Proof.
  intros i j.
  assert (Hi : 0 <= throttlePot i <= throttlePot j) by (cbn; lia).
  assert (Hj : throttlePot j <= 1023) by (cbn; lia).
  destruct (governor_monotone i j (setup false) (setup true) Hi Hj)
    as (A & _ & _ & D).
  exact (conj A D).
Defined.

(** ** Passes with a button held *)

Lemma pressedState_fields (pin : Z) (i : Inputs) (s : State) :
  motorControl1 (pressedState pin i s) = motorControl1 s /\
  motorControl2 (pressedState pin i s) = motorControl2 s /\
  rawSpeed1 (pressedState pin i s) = rawSpeed1 s /\
  rawSpeed2 (pressedState pin i s) = rawSpeed2 s /\
  direction1 (pressedState pin i s) = direction1 s /\
  direction2 (pressedState pin i s) = direction2 s /\
  maxFwdSpeed1 (pressedState pin i s) = fwdCeiling1 (throttlePot i) /\
  maxFwdSpeed2 (pressedState pin i s) = fwdCeiling2 (throttlePot i) /\
  maxRevSpeed1 (pressedState pin i s) = revFloor1 (throttlePot i) /\
  maxRevSpeed2 (pressedState pin i s) = revFloor2 (throttlePot i) /\
  buttonPinNumber (pressedState pin i s) = pin /\
  serial (pressedState pin i s) = serial s.
Proof.
  unfold pressedState, markPressed, polled, fwdCeiling1, fwdCeiling2,
    revFloor1, revFloor2.
  destruct s; unfold_model; exec; repeat split; reflexivity.
Qed.

Lemma pressedState_trimInputs (p : Z) (i : Inputs) (s : State) :
  trimInputs (pressedState p i s) = (rawSpeed1 s, p, trimOf (trimPot i)).
Proof.
  unfold pressedState, markPressed, polled, trimInputs, trimOf.
  destruct s; unfold_model; exec; reflexivity.
Qed.

(** The commands that a pass with a button held persists. *)
Lemma loop_pressed_commands (i : Inputs) (s : State) (p : Z) :
  firstLow i = Some p ->
  motorControl1 (loop i s)
    = motorControl1 (clampCommands (motionUpdate p (pressedState p i s))) /\
  motorControl2 (loop i s)
    = motorControl2 (clampCommands (motionUpdate p (pressedState p i s))).
Proof.
  intros F. rewrite (loop_pressed i s p F). unfold pressedState.
  generalize (markPressed (set_buttonPinNumber p (polled i s))). intros x.
  destruct (deriveSpeeds_fields (buttonPressedFunction p x)) as (-> & -> & _).
  destruct (buttonPressedFunction_shape p x)
    as (a & b & d & m1 & m2 & -> & -> & -> & _).
  split; reflexivity.
Qed.

Lemma repairZero_id (s : State) : valid_commands s -> repairZero s = s.
Proof.
  unfold valid_commands. destruct s; unfold_model; intros; exec;
    solve [ reflexivity | lia ].
Qed.

Lemma clampCommands_fields (z : State) :
  motorControl1 (clampCommands z) = Z.min 127 (Z.max 1 (motorControl1 z)) /\
  motorControl2 (clampCommands z) = Z.min 255 (Z.max 128 (motorControl2 z)).
Proof. by_cases z; lia. Qed.

(** ** Forward *)

(** Forward from commands on or below the ceilings. *)
Lemma forward_step (s : State) :
  motorControl1 s <= maxFwdSpeed1 s ->
  motorControl2 s <= maxFwdSpeed2 s ->
  motorControl1 s <= motorControl1 (accelerateForward s) <= maxFwdSpeed1 s /\
  motorControl2 s <= motorControl2 (accelerateForward s) <= maxFwdSpeed2 s /\
  motorControl1 (accelerateForward s)
    <= motorControl1 s + decelFactor + accelFactor /\
  motorControl2 (accelerateForward s)
    <= motorControl2 s + decelFactor + accelFactor /\
  (motorControl1 s < maxFwdSpeed1 s \/ motorControl2 s < maxFwdSpeed2 s ->
   motorControl1 s + motorControl2 s
   < motorControl1 (accelerateForward s) + motorControl2 (accelerateForward s)).
Proof. destruct s; unfold_model; intros; exec; lia. Qed.

Lemma forward_pass (i : Inputs) (s : State) :
  firstLow i = Some 3 ->
  0 <= throttlePot i <= 1023 ->
  valid_commands s ->
  motorControl1 s <= fwdCeiling1 (throttlePot i) ->
  motorControl2 s <= fwdCeiling2 (throttlePot i) ->
  motorControl1 s <= motorControl1 (loop i s) <= fwdCeiling1 (throttlePot i) /\
  motorControl2 s <= motorControl2 (loop i s) <= fwdCeiling2 (throttlePot i) /\
  motorControl1 (loop i s) <= motorControl1 s + decelFactor + accelFactor /\
  motorControl2 (loop i s) <= motorControl2 s + decelFactor + accelFactor /\
  (motorControl1 s < fwdCeiling1 (throttlePot i) \/
   motorControl2 s < fwdCeiling2 (throttlePot i) ->
   motorControl1 s + motorControl2 s
   < motorControl1 (loop i s) + motorControl2 (loop i s)).
Proof.
  intros F P V C1 C2.
  destruct (loop_pressed_commands i s 3 F) as [-> ->].
  destruct (pressedState_fields 3 i s)
    as (X1 & X2 & _ & _ & _ & _ & X7 & X8 & _).
  generalize dependent (pressedState 3 i s). intros x X1 X2 X7 X8.
  assert (Vx : valid_commands x)
    by (unfold valid_commands; rewrite X1, X2; exact V).
  rewrite (proj1 (proj2 (motionUpdate_pin x))), (repairZero_id x Vx).
  destruct (governor_values _ P) as (_ & G1 & _ & G2 & _).
  rewrite <- X1, <- X2, <- X7, <- X8 in *.
  destruct (forward_step x C1 C2) as (S1 & S2 & S3 & S4 & S5).
  rewrite clampCommands_id
    by (unfold valid_commands in *; lia).
  exact (conj S1 (conj S2 (conj S3 (conj S4 S5)))).
Qed.

(** X3.  A Forward pass of the running sketch, from commands on or below
    the ceilings of the throttle it reads: neither command decreases,
    neither passes its ceiling, neither moves by more than the decel plus
    the accel increment, and unless both already stand on their ceilings
    the pass makes progress (the sum of the two commands grows). *)
Theorem forward_pass_governed (i : Inputs) (s : State) :
  reachable s ->
  firstLow i = Some 3 ->
  0 <= throttlePot i <= 1023 ->
  motorControl1 s <= fwdCeiling1 (throttlePot i) ->
  motorControl2 s <= fwdCeiling2 (throttlePot i) ->
  motorControl1 s <= motorControl1 (loop i s) <= fwdCeiling1 (throttlePot i) /\
  motorControl2 s <= motorControl2 (loop i s) <= fwdCeiling2 (throttlePot i) /\
  motorControl1 (loop i s) <= motorControl1 s + decelFactor + accelFactor /\
  motorControl2 (loop i s) <= motorControl2 s + decelFactor + accelFactor /\
  (motorControl1 s < fwdCeiling1 (throttlePot i) \/
   motorControl2 s < fwdCeiling2 (throttlePot i) ->
   motorControl1 s + motorControl2 s
   < motorControl1 (loop i s) + motorControl2 (loop i s)).
Proof.
  intros R F P C1 C2.
  exact (forward_pass i s F P (proj1 (reachable_valid s R)) C1 C2).
Qed.

Lemma forward_pass_governed_witness :
  let i := press 3 700 512 in
  let s := run [press 4 1023 512; press 5 1023 512] (setup false) in
  motorControl1 s <= motorControl1 (loop i s) <= fwdCeiling1 700 /\
  motorControl2 s <= motorControl2 (loop i s) <= fwdCeiling2 700 /\
  motorControl1 s + motorControl2 s
  < motorControl1 (loop i s) + motorControl2 (loop i s).
Proof.
  intros i s.
  assert (R : reachable s) by apply reachable_run, reach_setup.
  assert (F : firstLow i = Some 3) by reflexivity.
  assert (P : 0 <= throttlePot i <= 1023) by (cbn; lia).
  assert (C1 : motorControl1 s <= fwdCeiling1 (throttlePot i))
    by (vm_compute; discriminate).
  assert (C2 : motorControl2 s <= fwdCeiling2 (throttlePot i))
    by (vm_compute; discriminate).
  destruct (forward_pass_governed i s R F P C1 C2) as (A & B & _ & _ & G).
  split; [ exact A | split; [ exact B | ] ].
  apply G. left. vm_compute. reflexivity.
Defined.

(** X4.  Holding Forward at a steady throttle reaches the governor
    ceilings: from commands on or below the ceilings, as many passes as
    the two commands together are short of them leave both commands
    exactly on their ceilings, and further Forward passes keep them
    there. *)
Theorem forward_reaches_ceiling (ticks : list Inputs) :
  forall (p : Z) (s : State),
    0 <= p <= 1023 ->
    Forall (fun i => firstLow i = Some 3 /\ throttlePot i = p) ticks ->
    valid_commands s ->
    motorControl1 s <= fwdCeiling1 p ->
    motorControl2 s <= fwdCeiling2 p ->
    (fwdCeiling1 p - motorControl1 s) + (fwdCeiling2 p - motorControl2 s)
      <= Z.of_nat (length ticks) ->
    motorControl1 (run ticks s) = fwdCeiling1 p /\
    motorControl2 (run ticks s) = fwdCeiling2 p.
Proof.
  induction ticks as [ | i ticks IH]; intros p s P L V C1 C2 M.
  - change (run [] s) with s. cbn [length Z.of_nat] in M. lia.
  - inversion L as [ | ? ? [Fi Ti] Lt]; subst.
    destruct (forward_pass i s Fi P V C1 C2) as (S1 & S2 & _ & _ & S3).
    rewrite run_cons. apply (IH (throttlePot i)); try assumption.
    + apply loop_valid, V.
    + lia.
    + lia.
    + rewrite length_cons, Nat2Z.inj_succ in M.
      destruct (Z.eq_dec (motorControl1 s) (fwdCeiling1 (throttlePot i)));
        destruct (Z.eq_dec (motorControl2 s) (fwdCeiling2 (throttlePot i)));
        lia.
Qed.

Lemma forward_reaches_ceiling_witness :
  let s := run [press 5 1023 512; press 5 1023 512] (setup false) in
  motorControl1 (run (repeat (press 3 100 512) 20) s) = fwdCeiling1 100 /\
  motorControl2 (run (repeat (press 3 100 512) 20) s) = fwdCeiling2 100.
Proof.
  intros s.
  apply (forward_reaches_ceiling (repeat (press 3 100 512) 20) 100 s).
  - lia.
  - apply held_throughout. split; reflexivity.
  - unfold valid_commands. vm_compute. repeat split; discriminate.
  - vm_compute. discriminate.
  - vm_compute. discriminate.
  - vm_compute. discriminate.
Defined.

(** Forward on a straight line: commands 128 apart stay 128 apart. *)
Lemma forward_straight_step (s : State) :
  valid_commands s ->
  65 <= maxFwdSpeed1 s <= 127 ->
  maxFwdSpeed2 s = maxFwdSpeed1 s + 128 ->
  motorControl2 s = motorControl1 s + 128 ->
  motorControl2 (accelerateForward s)
    = motorControl1 (accelerateForward s) + 128 /\
  1 <= motorControl1 (accelerateForward s) <= 127 /\
  (deadStop1 <= motorControl1 s <= maxFwdSpeed1 s ->
   motorControl1 (accelerateForward s)
   = Z.min (motorControl1 s + accelFactor) (maxFwdSpeed1 s)).
Proof.
  unfold valid_commands.
  destruct s; unfold_model; intros; exec; lia.
Qed.

Lemma forward_straight_pass (i : Inputs) (s : State) :
  firstLow i = Some 3 ->
  0 <= throttlePot i <= 1023 ->
  valid_commands s ->
  motorControl2 s = motorControl1 s + 128 ->
  motorControl2 (loop i s) = motorControl1 (loop i s) + 128 /\
  (deadStop1 <= motorControl1 s <= fwdCeiling1 (throttlePot i) ->
   motorControl1 (loop i s)
   = Z.min (motorControl1 s + accelFactor) (fwdCeiling1 (throttlePot i))).
Proof.
  intros F P V L.
  destruct (loop_pressed_commands i s 3 F) as [-> ->].
  destruct (pressedState_fields 3 i s)
    as (X1 & X2 & _ & _ & _ & _ & X7 & X8 & _).
  generalize dependent (pressedState 3 i s). intros x X1 X2 X7 X8.
  assert (Vx : valid_commands x)
    by (unfold valid_commands; rewrite X1, X2; exact V).
  rewrite (proj1 (proj2 (motionUpdate_pin x))), (repairZero_id x Vx).
  destruct (governor_values _ P) as (_ & G1 & _ & G2 & G3 & _).
  rewrite <- X1, <- X2, <- X7, <- X8 in *.
  destruct (forward_straight_step x Vx G1 G3 L) as (S1 & S2 & S3).
  rewrite clampCommands_id by (unfold valid_commands; lia).
  exact (conj S1 S3).
Qed.

(** X5.  The forward ramp in closed form.  From commands in lock step
    (motor B's 128 above motor A's) with motor A between its dead stop
    and its ceiling, [n] Forward passes at a steady throttle leave motor
    A at its command plus [n] accel increments, capped at the ceiling,
    and the two commands still in lock step: from rest 64, 66, 68, ...
    up to the ceiling, in a straight line. *)
Theorem forward_ramp (ticks : list Inputs) :
  forall (p : Z) (s : State),
    0 <= p <= 1023 ->
    Forall (fun i => firstLow i = Some 3 /\ throttlePot i = p) ticks ->
    valid_commands s ->
    motorControl2 s = motorControl1 s + 128 ->
    deadStop1 <= motorControl1 s <= fwdCeiling1 p ->
    motorControl1 (run ticks s)
    = Z.min (motorControl1 s + accelFactor * Z.of_nat (length ticks))
        (fwdCeiling1 p) /\
    motorControl2 (run ticks s) = motorControl1 (run ticks s) + 128.
Proof.
  induction ticks as [ | i ticks IH]; intros p s P L V K C.
  - change (run [] s) with s. cbn [length Z.of_nat]. lia.
  - inversion L as [ | ? ? [Fi Ti] Lt]; subst.
    destruct (forward_straight_pass i s Fi P V K) as (S1 & S2).
    specialize (S2 C).
    rewrite run_cons.
    destruct (IH (throttlePot i) (loop i s) P Lt (loop_valid i s V) S1)
      as [-> ->].
    + rewrite S2. unfold deadStop1, accelFactor in *. lia.
    + rewrite S2, length_cons, Nat2Z.inj_succ.
      pose proof (Nat2Z.is_nonneg (length ticks)) as N.
      generalize dependent (Z.of_nat (length ticks)).
      generalize dependent (motorControl1 s).
      generalize (fwdCeiling1 (throttlePot i)).
      unfold accelFactor, deadStop1. intros. split; lia.
Qed.

Lemma forward_ramp_witness :
  motorControl1 (run (repeat (press 3 1023 512) 10) (setup true)) = 84 /\
  motorControl2 (run (repeat (press 3 1023 512) 10) (setup true)) = 212 /\
  motorControl1 (run (repeat (press 3 1023 512) 40) (setup true)) = 127.
Proof.
  assert (V : valid_commands (setup true))
    by (unfold valid_commands; vm_compute; repeat split; discriminate).
  assert (P : 0 <= 1023 <= 1023) by lia.
  assert (K : motorControl2 (setup true) = motorControl1 (setup true) + 128)
    by reflexivity.
  assert (C : deadStop1 <= motorControl1 (setup true) <= fwdCeiling1 1023)
    by (vm_compute; split; discriminate).
  assert (L : forall n,
             Forall (fun i => firstLow i = Some 3 /\ throttlePot i = 1023)
               (repeat (press 3 1023 512) n))
    by (intros n; apply held_throughout; split; reflexivity).
  destruct (forward_ramp _ 1023 (setup true) P (L 10%nat) V K C) as [A B].
  destruct (forward_ramp _ 1023 (setup true) P (L 40%nat) V K C) as [A' _].
  split; [ rewrite A; reflexivity | ].
  split; [ rewrite B, A; reflexivity | rewrite A'; reflexivity ].
Defined.

(** ** Reverse *)

(** Reverse from commands on or above the floors, the two pairs of
    bounds offset alike up to one count. *)
Lemma reverse_step (s : State) :
  maxRevSpeed1 s <= motorControl1 s ->
  maxRevSpeed2 s <= motorControl2 s ->
  maxFwdSpeed2 s - maxFwdSpeed1 s - 1 <= maxRevSpeed2 s - maxRevSpeed1 s
    <= maxFwdSpeed2 s - maxFwdSpeed1 s ->
  maxRevSpeed1 s <= motorControl1 (accelerateReverse s) <= motorControl1 s /\
  maxRevSpeed2 s <= motorControl2 (accelerateReverse s) <= motorControl2 s /\
  motorControl1 s - decelFactor - accelFactor
    <= motorControl1 (accelerateReverse s) /\
  motorControl2 s - decelFactor - accelFactor
    <= motorControl2 (accelerateReverse s) /\
  (maxRevSpeed1 s < motorControl1 s \/ maxRevSpeed2 s < motorControl2 s ->
   motorControl1 (accelerateReverse s) + motorControl2 (accelerateReverse s)
   < motorControl1 s + motorControl2 s).
Proof. destruct s; unfold_model; intros; exec; lia. Qed.

Lemma reverse_pass (i : Inputs) (s : State) :
  firstLow i = Some 4 ->
  0 <= throttlePot i <= 1023 ->
  valid_commands s ->
  revFloor1 (throttlePot i) <= motorControl1 s ->
  revFloor2 (throttlePot i) <= motorControl2 s ->
  revFloor1 (throttlePot i) <= motorControl1 (loop i s) <= motorControl1 s /\
  revFloor2 (throttlePot i) <= motorControl2 (loop i s) <= motorControl2 s /\
  motorControl1 s - decelFactor - accelFactor <= motorControl1 (loop i s) /\
  motorControl2 s - decelFactor - accelFactor <= motorControl2 (loop i s) /\
  (revFloor1 (throttlePot i) < motorControl1 s \/
   revFloor2 (throttlePot i) < motorControl2 s ->
   motorControl1 (loop i s) + motorControl2 (loop i s)
   < motorControl1 s + motorControl2 s).
Proof.
  intros F P V C1 C2.
  destruct (loop_pressed_commands i s 4 F) as [-> ->].
  destruct (pressedState_fields 4 i s)
    as (X1 & X2 & _ & _ & _ & _ & X7 & X8 & X9 & X10 & _).
  generalize dependent (pressedState 4 i s). intros x X1 X2 X7 X8 X9 X10.
  assert (Vx : valid_commands x)
    by (unfold valid_commands; rewrite X1, X2; exact V).
  rewrite (proj1 (proj2 (proj2 (motionUpdate_pin x)))), (repairZero_id x Vx).
  destruct (governor_values _ P) as (G1 & G2 & G3 & G4 & G5 & G6).
  rewrite <- X1, <- X2, <- X7, <- X8, <- X9, <- X10 in *.
  assert (O : maxFwdSpeed2 x - maxFwdSpeed1 x - 1
              <= maxRevSpeed2 x - maxRevSpeed1 x
              <= maxFwdSpeed2 x - maxFwdSpeed1 x) by lia.
  destruct (reverse_step x C1 C2 O) as (S1 & S2 & S3 & S4 & S5).
  rewrite clampCommands_id
    by (unfold valid_commands in *; lia).
  exact (conj S1 (conj S2 (conj S3 (conj S4 S5)))).
Qed.

(** X6.  A Reverse pass of the running sketch, from commands on or above
    the floors of the throttle it reads: neither command increases,
    neither passes its floor, neither moves by more than the decel plus
    the accel increment, and unless both already stand on their floors
    the pass makes progress (the sum of the two commands shrinks). *)
Theorem reverse_pass_governed (i : Inputs) (s : State) :
  reachable s ->
  firstLow i = Some 4 ->
  0 <= throttlePot i <= 1023 ->
  revFloor1 (throttlePot i) <= motorControl1 s ->
  revFloor2 (throttlePot i) <= motorControl2 s ->
  revFloor1 (throttlePot i) <= motorControl1 (loop i s) <= motorControl1 s /\
  revFloor2 (throttlePot i) <= motorControl2 (loop i s) <= motorControl2 s /\
  motorControl1 s - decelFactor - accelFactor <= motorControl1 (loop i s) /\
  motorControl2 s - decelFactor - accelFactor <= motorControl2 (loop i s) /\
  (revFloor1 (throttlePot i) < motorControl1 s \/
   revFloor2 (throttlePot i) < motorControl2 s ->
   motorControl1 (loop i s) + motorControl2 (loop i s)
   < motorControl1 s + motorControl2 s).
Proof.
  intros R F P C1 C2.
  exact (reverse_pass i s F P (proj1 (reachable_valid s R)) C1 C2).
Qed.

Lemma reverse_pass_governed_witness :
  let i := press 4 700 512 in
  let s := run [press 3 1023 512; press 6 1023 512] (setup false) in
  revFloor1 700 <= motorControl1 (loop i s) <= motorControl1 s /\
  revFloor2 700 <= motorControl2 (loop i s) <= motorControl2 s /\
  motorControl1 (loop i s) + motorControl2 (loop i s)
  < motorControl1 s + motorControl2 s.
Proof.
  intros i s.
  assert (R : reachable s) by apply reachable_run, reach_setup.
  assert (F : firstLow i = Some 4) by reflexivity.
  assert (P : 0 <= throttlePot i <= 1023) by (cbn; lia).
  assert (C1 : revFloor1 (throttlePot i) <= motorControl1 s)
    by (vm_compute; discriminate).
  assert (C2 : revFloor2 (throttlePot i) <= motorControl2 s)
    by (vm_compute; discriminate).
  destruct (reverse_pass_governed i s R F P C1 C2) as (A & B & _ & _ & G).
  split; [ exact A | split; [ exact B | ] ].
  apply G. left. vm_compute. reflexivity.
Defined.

(** X7.  Holding Reverse at a steady throttle reaches the governor
    floors: from commands on or above the floors, as many passes as the
    two commands together exceed them leave both commands exactly on
    their floors, and further Reverse passes keep them there. *)
Theorem reverse_reaches_floor (ticks : list Inputs) :
  forall (p : Z) (s : State),
    0 <= p <= 1023 ->
    Forall (fun i => firstLow i = Some 4 /\ throttlePot i = p) ticks ->
    valid_commands s ->
    revFloor1 p <= motorControl1 s ->
    revFloor2 p <= motorControl2 s ->
    (motorControl1 s - revFloor1 p) + (motorControl2 s - revFloor2 p)
      <= Z.of_nat (length ticks) ->
    motorControl1 (run ticks s) = revFloor1 p /\
    motorControl2 (run ticks s) = revFloor2 p.
Proof.
  induction ticks as [ | i ticks IH]; intros p s P L V C1 C2 M.
  - change (run [] s) with s. cbn [length Z.of_nat] in M. lia.
  - inversion L as [ | ? ? [Fi Ti] Lt]; subst.
    destruct (reverse_pass i s Fi P V C1 C2) as (S1 & S2 & _ & _ & S3).
    rewrite run_cons. apply (IH (throttlePot i)); try assumption.
    + apply loop_valid, V.
    + lia.
    + lia.
    + rewrite length_cons, Nat2Z.inj_succ in M.
      destruct (Z.eq_dec (motorControl1 s) (revFloor1 (throttlePot i)));
        destruct (Z.eq_dec (motorControl2 s) (revFloor2 (throttlePot i)));
        lia.
Qed.

Lemma reverse_reaches_floor_witness :
  let s := run [press 6 1023 512; press 6 1023 512] (setup false) in
  motorControl1 (run (repeat (press 4 100 512) 20) s) = revFloor1 100 /\
  motorControl2 (run (repeat (press 4 100 512) 20) s) = revFloor2 100.
Proof.
  intros s.
  apply (reverse_reaches_floor (repeat (press 4 100 512) 20) 100 s).
  - lia.
  - apply held_throughout. split; reflexivity.
  - unfold valid_commands. vm_compute. repeat split; discriminate.
  - vm_compute. discriminate.
  - vm_compute. discriminate.
  - vm_compute. discriminate.
Defined.

Lemma reverse_straight_step (s : State) :
  1 <= maxRevSpeed1 s <= 63 ->
  127 <= maxRevSpeed2 s - maxRevSpeed1 s <= 128 ->
  maxFwdSpeed2 s = maxFwdSpeed1 s + 128 ->
  reverseRamp (maxRevSpeed1 s) (maxRevSpeed2 s) s ->
  motorControl1 (accelerateReverse s)
  = Z.max (motorControl1 s - accelFactor) (maxRevSpeed1 s) /\
  motorControl2 (accelerateReverse s)
  = Z.max (motorControl2 s - accelFactor) (maxRevSpeed2 s).
Proof.
  unfold reverseRamp.
  destruct s; unfold_model; intros; exec; lia.
Qed.

Lemma reverse_straight_pass (i : Inputs) (s : State) :
  firstLow i = Some 4 ->
  0 <= throttlePot i <= 1023 ->
  reverseRamp (revFloor1 (throttlePot i)) (revFloor2 (throttlePot i)) s ->
  motorControl1 (loop i s)
  = Z.max (motorControl1 s - accelFactor) (revFloor1 (throttlePot i)) /\
  motorControl2 (loop i s)
  = Z.max (motorControl2 s - accelFactor) (revFloor2 (throttlePot i)).
Proof.
  intros F P K.
  destruct (governor_values _ P) as (G1 & G2 & G3 & G4 & G5 & G6).
  assert (V : valid_commands s).
  { unfold reverseRamp, valid_commands, deadStop1 in *. lia. }
  destruct (loop_pressed_commands i s 4 F) as [-> ->].
  destruct (pressedState_fields 4 i s)
    as (X1 & X2 & _ & _ & _ & _ & X7 & X8 & X9 & X10 & _).
  generalize dependent (pressedState 4 i s). intros x X1 X2 X7 X8 X9 X10.
  assert (Vx : valid_commands x)
    by (unfold valid_commands; rewrite X1, X2; exact V).
  rewrite (proj1 (proj2 (proj2 (motionUpdate_pin x)))), (repairZero_id x Vx).
  unfold reverseRamp in K.
  rewrite <- X1, <- X2, <- X7, <- X8, <- X9, <- X10 in *.
  assert (Kx : reverseRamp (maxRevSpeed1 x) (maxRevSpeed2 x) x) by exact K.
  assert (O : maxFwdSpeed2 x = maxFwdSpeed1 x + 128) by lia.
  destruct (reverse_straight_step x G1 G6 O Kx) as (S1 & S2).
  rewrite clampCommands_id
    by (unfold valid_commands, accelFactor in *; lia).
  exact (conj S1 S2).
Qed.

(** X8.  The reverse ramp in closed form.  From commands in lock step
    with motor A between its floor and its dead stop, [n] Reverse passes
    at a steady throttle leave each command at its start minus [n] accel
    increments, stopped at its own floor: from rest 64, 62, 60, ... down
    to the floor for motor A and 192, 190, 188, ... for motor B. *)
Theorem reverse_ramp (ticks : list Inputs) :
  forall (p : Z) (s : State),
    0 <= p <= 1023 ->
    Forall (fun i => firstLow i = Some 4 /\ throttlePot i = p) ticks ->
    motorControl2 s = motorControl1 s + 128 ->
    revFloor1 p <= motorControl1 s <= deadStop1 ->
    motorControl1 (run ticks s)
    = Z.max (motorControl1 s - accelFactor * Z.of_nat (length ticks))
        (revFloor1 p) /\
    motorControl2 (run ticks s)
    = Z.max (motorControl2 s - accelFactor * Z.of_nat (length ticks))
        (revFloor2 p).
Proof.
  intros p s P L K C.
  assert (R : reverseRamp (revFloor1 p) (revFloor2 p) s)
    by (left; exact (conj K C)).
  assert (B : revFloor1 p <= motorControl1 s /\ revFloor2 p <= motorControl2 s).
  { destruct (governor_values _ P) as (G1 & G2 & G3 & G4 & G5 & G6). lia. }
  clear K C. revert s R B.
  induction ticks as [ | i ticks IH]; intros s R B.
  - change (run [] s) with s. cbn [length Z.of_nat]. lia.
  - inversion L as [ | ? ? [Fi Ti] Lt]; subst.
    destruct (reverse_straight_pass i s Fi P R) as (S1 & S2).
    destruct (governor_values _ P) as (G1 & G2 & G3 & G4 & G5 & G6).
    rewrite run_cons.
    destruct (IH Lt (loop i s)) as [-> ->].
    + unfold reverseRamp, accelFactor, deadStop1 in *. lia.
    + lia.
    + rewrite S1, S2, length_cons, Nat2Z.inj_succ.
      pose proof (Nat2Z.is_nonneg (length ticks)) as N.
      generalize dependent (Z.of_nat (length ticks)).
      unfold accelFactor. intros. lia.
Qed.

Lemma reverse_ramp_witness :
  motorControl1 (run (repeat (press 4 1023 512) 10) (setup false)) = 44 /\
  motorControl2 (run (repeat (press 4 1023 512) 10) (setup false)) = 172 /\
  motorControl1 (run (repeat (press 4 1023 512) 40) (setup false)) = 1 /\
  motorControl2 (run (repeat (press 4 1023 512) 40) (setup false)) = 128.
Proof.
  assert (P : 0 <= 1023 <= 1023) by lia.
  assert (K : motorControl2 (setup false) = motorControl1 (setup false) + 128)
    by reflexivity.
  assert (C : revFloor1 1023 <= motorControl1 (setup false) <= deadStop1)
    by (vm_compute; split; discriminate).
  assert (L : forall n,
             Forall (fun i => firstLow i = Some 4 /\ throttlePot i = 1023)
               (repeat (press 4 1023 512) n))
    by (intros n; apply held_throughout; split; reflexivity).
  destruct (reverse_ramp _ 1023 (setup false) P (L 10%nat) K C) as [A B].
  destruct (reverse_ramp _ 1023 (setup false) P (L 40%nat) K C) as [A' B'].
  split; [ rewrite A; reflexivity | ].
  split; [ rewrite B; reflexivity | ].
  split; [ rewrite A'; reflexivity | rewrite B'; reflexivity ].
Defined.

(** ** Idle passes come to rest *)

Lemma decelerated_distance (c x x' : Z) :
  decelerated c x x' ->
  Z.abs (x' - c) = Z.max 0 (Z.abs (x - c) - decelFactor).
Proof.
  unfold decelerated, decelFactor. intros (A & B & C).
  destruct (Z.lt_total x c) as [L | [E | G]].
  - specialize (B L). lia.
  - specialize (C E). lia.
  - specialize (A G). lia.
Qed.

Lemma coast_step (a n : Z) :
  0 <= n ->
  Z.max 0 (Z.max 0 (a - decelFactor) - decelFactor * n)
  = Z.max 0 (a - decelFactor * Z.succ n).
Proof. unfold decelFactor. intros H. lia. Qed.

Lemma idle_pass_distance (i : Inputs) (s : State) :
  valid_commands s -> idle i s ->
  valid_commands (loop i s) /\
  idle i (loop i s) /\
  Z.abs (motorControl1 (loop i s) - deadStop1)
    = Z.max 0 (Z.abs (motorControl1 s - deadStop1) - decelFactor) /\
  Z.abs (motorControl2 (loop i s) - deadStop2)
    = Z.max 0 (Z.abs (motorControl2 s - deadStop2) - decelFactor).
Proof.
  intros V H.
  destruct (loop_idle i s V H) as (D1 & D2 & B & I & _).
  split; [ apply loop_valid, V | ].
  split; [ split; [ apply H | right; rewrite I; lia ] | ].
  split; apply decelerated_distance; assumption.
Qed.

Lemma idle_run_distance (ticks : list Inputs) :
  forall s : State,
    valid_commands s ->
    beginnerMode s = false \/ 0 <= buttonPressedIndicator s <= 1 ->
    Forall (fun i => anyLow i = false) ticks ->
    Z.abs (motorControl1 (run ticks s) - deadStop1)
      = Z.max 0 (Z.abs (motorControl1 s - deadStop1)
                 - decelFactor * Z.of_nat (length ticks)) /\
    Z.abs (motorControl2 (run ticks s) - deadStop2)
      = Z.max 0 (Z.abs (motorControl2 s - deadStop2)
                 - decelFactor * Z.of_nat (length ticks)).
Proof.
  induction ticks as [ | i ticks IH]; intros s V M L.
  - change (run [] s) with s. cbn [length Z.of_nat]. unfold decelFactor. lia.
  - inversion L as [ | ? ? Li Lt]; subst.
    destruct (idle_pass_distance i s V (conj Li M)) as (V' & [_ M'] & E1 & E2).
    rewrite run_cons.
    destruct (IH (loop i s) V' M' Lt) as [-> ->].
    rewrite E1, E2, length_cons, Nat2Z.inj_succ.
    split; apply coast_step, Nat2Z.is_nonneg.
Qed.

(** X9.  With every button released (and no latch pending) the device
    coasts to rest: after [n] passes each command's distance from its
    dead stop is its distance at the start less [n] decel increments,
    and never below zero; from any commands that fit the wire protocol,
    16 passes leave both commands on their dead stops, where they
    stay. *)
Theorem idle_reaches_rest (ticks : list Inputs) (s : State) :
  valid_commands s ->
  beginnerMode s = false \/ 0 <= buttonPressedIndicator s <= 1 ->
  Forall (fun i => anyLow i = false) ticks ->
  Z.abs (motorControl1 (run ticks s) - deadStop1)
    = Z.max 0 (Z.abs (motorControl1 s - deadStop1)
               - decelFactor * Z.of_nat (length ticks)) /\
  Z.abs (motorControl2 (run ticks s) - deadStop2)
    = Z.max 0 (Z.abs (motorControl2 s - deadStop2)
               - decelFactor * Z.of_nat (length ticks)) /\
  ((16 <= length ticks)%nat ->
   motorControl1 (run ticks s) = deadStop1 /\
   motorControl2 (run ticks s) = deadStop2).
Proof.
  intros V M L.
  destruct (idle_run_distance ticks s V M L) as [E1 E2].
  split; [ exact E1 | split; [ exact E2 | ] ].
  intros N. unfold valid_commands in V.
  generalize dependent (motorControl1 (run ticks s)).
  generalize dependent (motorControl2 (run ticks s)).
  unfold deadStop1, deadStop2, decelFactor in *. intros. lia.
Qed.

Lemma idle_reaches_rest_witness :
  let s := run (repeat (press 4 1023 512) 32) (setup false) in
  motorControl1 s = 1 /\ motorControl2 s = 128 /\
  motorControl1 (run (repeat (press 0 1023 512) 16) s) = deadStop1 /\
  motorControl2 (run (repeat (press 0 1023 512) 16) s) = deadStop2.
Proof.
  intros s.
  split; [ vm_compute; reflexivity | split; [ vm_compute; reflexivity | ] ].
  assert (V : valid_commands s)
    by (unfold valid_commands; vm_compute; repeat split; discriminate).
  assert (M : beginnerMode s = false \/ 0 <= buttonPressedIndicator s <= 1)
    by (left; vm_compute; reflexivity).
  assert (L : Forall (fun i => anyLow i = false)
                (repeat (press 0 1023 512) 16))
    by (apply held_throughout; reflexivity).
  destruct (idle_reaches_rest _ s V M L) as (_ & _ & R).
  apply R. cbn. lia.
Defined.

(** ** Button priority *)

Lemma polled_ext (i j : Inputs) (s : State) :
  throttlePot i = throttlePot j -> trimPot i = trimPot j ->
  polled i s = polled j s.
Proof. intros T R. unfold polled, readPots. rewrite T, R. reflexivity. Qed.

Lemma firstLow_press (p throttle trim : Z) :
  2 <= p <= 6 -> firstLow (press p throttle trim) = Some p.
Proof.
  intros H.
  assert (C : p = 2 \/ p = 3 \/ p = 4 \/ p = 5 \/ p = 6) by lia.
  destruct C as [-> | [-> | [-> | [-> | ->]]]]; reflexivity.
Qed.

(** A pass reads the pins only as far as the first one that is LOW. *)
Lemma first_low_pin_decides (i j : Inputs) (s : State) :
  throttlePot i = throttlePot j ->
  trimPot i = trimPot j ->
  firstLow i = firstLow j ->
  loop i s = loop j s.
Proof.
  intros T R F.
  rewrite !loop_eq, !poll_firstLow, F, (polled_ext i j s T R). reflexivity.
Qed.

(** X10.  Button priority.  When several buttons are held, the pass
    serves the one on the lowest pin and ignores the others: the whole
    state after the pass, serial port included, is the one that the
    same pass would leave with that button alone held.  Pin order is
    Stop, Forward, Reverse, Left, Right, so Stop overrides everything. *)
Theorem lowest_pin_wins (i : Inputs) (s : State) (p : Z) :
  2 <= p <= 6 ->
  low i p = true ->
  (forall q, 2 <= q < p -> low i q = false) ->
  loop i s = loop (press p (throttlePot i) (trimPot i)) s.
Proof.
  intros R L N.
  apply first_low_pin_decides; try reflexivity.
  rewrite (firstLow_press p _ _ R).
  unfold firstLow.
  assert (C : p = 2 \/ p = 3 \/ p = 4 \/ p = 5 \/ p = 6) by lia.
  destruct C as [-> | [-> | [-> | [-> | ->]]]];
    rewrite ?(N 2), ?(N 3), ?(N 4), ?(N 5) by lia; rewrite L; reflexivity.
Qed.

Lemma lowest_pin_wins_witness :
  let i := mkInputs 1023 512 (fun p => (p =? 4) || (p =? 6)) in
  let s := run (repeat (press 3 1023 512) 5) (setup false) in
  loop i s = loop (press 4 1023 512) s.
Proof.
  intros i s.
  apply (lowest_pin_wins i s 4).
  - lia.
  - reflexivity.
  - intros q H. assert (C : q = 2 \/ q = 3) by lia.
    destruct C as [-> | ->]; reflexivity.
Defined.

(** ** Serial traffic in the normal mode *)

Lemma loop_beginnerMode (i : Inputs) (s : State) :
  beginnerMode (loop i s) = beginnerMode s.
Proof.
  destruct (polled_fields i s) as (_ & _ & _ & B & _).
  rewrite loop_eq, poll_firstLow.
  destruct (firstLow i) as [p | ].
  - set (x := markPressed _).
    assert (Bx : beginnerMode x = beginnerMode s).
    { subst x.
      destruct (markPressed_fields (set_buttonPinNumber p (polled i s)))
        as (-> & _).
      destruct (set_buttonPinNumber_fields p (polled i s)) as (_ & -> & _).
      exact B. }
    rewrite pressed_skips_idle.
    + destruct (deriveSpeeds_fields (buttonPressedFunction p x))
        as (_ & _ & _ & -> & _).
      destruct (buttonPressedFunction_shape p x)
        as (a & b & d & m1 & m2 & -> & _).
      exact Bx.
    + subst x. apply markPressed_indicator.
      destruct (set_buttonPinNumber_fields p (polled i s)) as (-> & -> & _).
      destruct (polled_fields i s) as (_ & _ & _ & -> & ->).
      destruct (beginnerMode s); auto.
  - destruct (released_fields i s) as (_ & _ & _ & Y4 & _).
    set (y := deriveSpeeds _) in *.
    unfold idleStep, bind.
    destruct (buttonPressedIndicator y =? 0); [ | exact Y4 ].
    set (z := if atRest y then _ else _).
    assert (Bz : beginnerMode z = beginnerMode y).
    { subst z. destruct (atRest y); [ reflexivity | ].
      destruct (decelerateFunction_writes y) as (a' & b' & d' & ->).
      reflexivity. }
    destruct (sendCommandFunction_shape z) as (a & b & m1 & m2 & -> & _).
    rewrite <- Y4, <- Bz. reflexivity.
Qed.

Lemma normal_pass_transmitted (i : Inputs) (s : State) :
  beginnerMode s = false -> transmitted s (loop i s).
Proof.
  intros B. destruct (anyLow i) eqn:A.
  - destruct (proj2 (firstLow_anyLow i) A) as (p & F & _).
    exact (loop_pressed_transmitted i s p F).
  - apply (loop_idle_transmitted i s A).
    destruct (polled_fields i s) as (_ & _ & _ & _ & ->).
    rewrite B. reflexivity.
Qed.

(** X11.  The mode is fixed at power-up: no pass changes [beginnerMode].
    In the normal mode the serial port therefore carries exactly one
    byte pair per pass, whatever the buttons and pots do: after [n]
    passes it holds [2 n] bytes more than before. *)
Theorem normal_mode_sends_one_pair_per_pass (ticks : list Inputs) :
  forall s : State,
    beginnerMode s = false ->
    beginnerMode (run ticks s) = false /\
    length (serial (run ticks s))
    = (length (serial s) + 2 * length ticks)%nat.
Proof.
  induction ticks as [ | i ticks IH]; intros s B.
  - change (run [] s) with s. cbn [length]. split; [ exact B | lia ].
  - rewrite run_cons.
    destruct (IH (loop i s)) as [-> ->];
      [ rewrite loop_beginnerMode; exact B | ].
    destruct (normal_pass_transmitted i s B) as (E & _).
    rewrite E, length_app. cbn [length]. split; [ reflexivity | lia ].
Qed.

Lemma normal_mode_sends_one_pair_per_pass_witness :
  let ticks := [press 3 900 0; press 0 900 0; press 5 20 1023;
                press 2 1023 512; press 0 0 0] in
  length (serial (run ticks (setup false))) = 10%nat.
Proof.
  intros ticks.
  assert (B : beginnerMode (setup false) = false) by reflexivity.
  destruct (normal_mode_sends_one_pair_per_pass ticks (setup false) B)
    as [_ E].
  rewrite E. reflexivity.
Defined.

(** ** The beginner-mode latch *)

Lemma latched_pass (i : Inputs) (s : State) :
  beginnerMode s = true ->
  anyLow i = false ->
  1 < buttonPressedIndicator s <= 255 ->
  motorControl1 (loop i s) = motorControl1 s /\
  motorControl2 (loop i s) = motorControl2 s /\
  serial (loop i s) = serial s /\
  beginnerMode (loop i s) = true /\
  buttonPressedIndicator (loop i s) = buttonPressedIndicator s - 1.
Proof.
  intros B A R.
  assert (L : latched i s = true).
  { unfold latched. rewrite B, A. cbn [negb andb]. lia. }
  rewrite (loop_latched i s (ltac:(lia)) L).
  destruct (released_fields i s) as (-> & -> & -> & -> & ->).
  destruct (polled_fields i s) as (_ & _ & _ & _ & ->).
  rewrite B.
  destruct (buttonPressedIndicator s >? 0) eqn:P; [ | lia ].
  unfold to_byte. rewrite Z.mod_small by lia. repeat split.
Qed.

(** While the latch counts down, the commands and the serial port are
    left alone. *)
Lemma latch_holds_commands (ticks : list Inputs) :
  forall s : State,
    beginnerMode s = true ->
    Forall (fun i => anyLow i = false) ticks ->
    Z.of_nat (length ticks) < buttonPressedIndicator s <= 255 ->
    motorControl1 (run ticks s) = motorControl1 s /\
    motorControl2 (run ticks s) = motorControl2 s /\
    serial (run ticks s) = serial s /\
    buttonPressedIndicator (run ticks s)
    = buttonPressedIndicator s - Z.of_nat (length ticks).
Proof.
  induction ticks as [ | i ticks IH]; intros s B L R.
  - change (run [] s) with s. cbn [length Z.of_nat]. repeat split. lia.
  - inversion L as [ | ? ? Li Lt]; subst.
    rewrite length_cons, Nat2Z.inj_succ in R.
    destruct (latched_pass i s B Li ltac:(lia)) as (E1 & E2 & E3 & E4 & E5).
    rewrite run_cons.
    destruct (IH (loop i s) E4 Lt ltac:(rewrite E5; lia)) as (-> & -> & -> & ->).
    rewrite E1, E2, E3, E5, length_cons, Nat2Z.inj_succ. repeat split. lia.
Qed.

Lemma beginner_press (i : Inputs) (s : State) :
  beginnerMode s = true ->
  anyLow i = true ->
  beginnerMode (loop i s) = true /\
  buttonPressedIndicator (loop i s) = beginnerModeDelay.
Proof.
  intros B L. split; [ rewrite loop_beginnerMode; exact B | ].
  destruct (proj2 (firstLow_anyLow i) L) as (p & F & _).
  rewrite (loop_pressed i s p F).
  assert (Bq : beginnerMode (set_buttonPinNumber p (polled i s)) = true).
  { destruct (set_buttonPinNumber_fields p (polled i s)) as (_ & -> & _).
    destruct (polled_fields i s) as (_ & _ & _ & -> & _). exact B. }
  generalize dependent (set_buttonPinNumber p (polled i s)). intros q Bq.
  destruct (deriveSpeeds_fields (buttonPressedFunction p (markPressed q)))
    as (_ & _ & _ & _ & ->).
  destruct (buttonPressedFunction_shape p (markPressed q))
    as (a & b & d & m1 & m2 & -> & _).
  unfold markPressed. rewrite Bq. reflexivity.
Qed.

(** X12.  In the beginner mode a tap is held.  After a pass with any
    button held, up to 14 passes with every button released leave the
    commands as that pass set them and send nothing; the pass after the
    14th is the first to decelerate, each command moving one decel step
    toward its dead stop. *)
Theorem beginner_tap_is_held
    (i j : Inputs) (ticks : list Inputs) (s : State) :
  beginnerMode s = true ->
  anyLow i = true ->
  Forall (fun k => anyLow k = false) ticks ->
  anyLow j = false ->
  ((length ticks < 15)%nat ->
   motorControl1 (run ticks (loop i s)) = motorControl1 (loop i s) /\
   motorControl2 (run ticks (loop i s)) = motorControl2 (loop i s) /\
   serial (run ticks (loop i s)) = serial (loop i s)) /\
  (length ticks = 14%nat ->
   decelerated deadStop1 (motorControl1 (loop i s))
     (motorControl1 (loop j (run ticks (loop i s)))) /\
   decelerated deadStop2 (motorControl2 (loop i s))
     (motorControl2 (loop j (run ticks (loop i s))))).
Proof.
  intros B L N Lj.
  destruct (beginner_press i s B L) as [B' I'].
  assert (H : (length ticks < 15)%nat ->
              motorControl1 (run ticks (loop i s)) = motorControl1 (loop i s) /\
              motorControl2 (run ticks (loop i s)) = motorControl2 (loop i s) /\
              serial (run ticks (loop i s)) = serial (loop i s) /\
              buttonPressedIndicator (run ticks (loop i s))
              = 15 - Z.of_nat (length ticks)).
  { intros K.
    destruct (latch_holds_commands ticks (loop i s) B' N) as (E1 & E2 & E3 & E4).
    - rewrite I'. unfold beginnerModeDelay. lia.
    - rewrite E4, I'. repeat split; assumption. }
  split.
  - intros K. destruct (H K) as (E1 & E2 & E3 & _). repeat split; assumption.
  - intros K. destruct (H ltac:(lia)) as (E1 & E2 & _ & E4).
    rewrite K in E4. rewrite <- E1, <- E2.
    assert (V : valid_commands (run ticks (loop i s))).
    { unfold valid_commands. rewrite E1, E2.
      destruct (proj2 (firstLow_anyLow i) L) as (p & F & _).
      apply (loop_pressed_transmitted i s p F). }
    destruct (loop_idle j (run ticks (loop i s)) V) as (D1 & D2 & _).
    + split; [ exact Lj | right; rewrite E4; cbn; lia ].
    + exact (conj D1 D2).
Qed.

Lemma beginner_tap_is_held_witness :
  let i := press 3 1023 512 in
  let j := press 0 1023 512 in
  let s := loop i (loop i (loop i (setup true))) in
  motorControl1 (loop i s) = 72 /\
  motorControl1 (run (repeat j 14) (loop i s)) = 72 /\
  serial (run (repeat j 14) (loop i s)) = serial (loop i s) /\
  motorControl1 (loop j (run (repeat j 14) (loop i s))) = 68.
Proof.
  intros i j s.
  assert (B : beginnerMode s = true) by (vm_compute; reflexivity).
  assert (L : anyLow i = true) by reflexivity.
  assert (N : Forall (fun k => anyLow k = false) (repeat j 14))
    by (apply held_throughout; reflexivity).
  assert (Lj : anyLow j = false) by reflexivity.
  destruct (beginner_tap_is_held i j (repeat j 14) s B L N Lj) as [H D].
  destruct H as (E1 & _ & E3); [ cbn; lia | ].
  destruct D as ((D1 & _) & _); [ reflexivity | ].
  assert (C : motorControl1 (loop i s) = 72) by (vm_compute; reflexivity).
  split; [ exact C | ].
  split; [ rewrite E1; exact C | ].
  split; [ exact E3 | ].
  rewrite D1; rewrite C; reflexivity.
Defined.

(** ** What goes out on the serial port *)

Lemma send_plain (z : State) :
  (buttonPinNumber z <> 3 /\ buttonPinNumber z <> 4) \/
  rawSpeed1 z <= Z.abs (trimAdjustment z) ->
  serial (sendCommandFunction z)
  = serial z ++ [motorControl1 (clampCommands z);
                 motorControl2 (clampCommands z)].
Proof.
  unfold to_byte.
  destruct z; unfold_model; unfold to_byte; intros H; exec;
    rewrite <- ?app_assoc; cbn [app];
    rewrite ?Z.mod_small by lia; solve [ reflexivity | exfalso; lia ].
Qed.

Lemma send_zero_trim (z : State) :
  trimAdjustment z = 0 ->
  serial (sendCommandFunction z)
  = serial z ++ [motorControl1 (clampCommands z);
                 motorControl2 (clampCommands z)].
Proof.
  destruct z; unfold_model; unfold to_byte; intros H; subst; exec;
    rewrite <- ?app_assoc; cbn [app];
    rewrite ?Z.add_0_r, ?Z.sub_0_r, ?Z.mod_small by lia; reflexivity.
Qed.

Lemma send_forward (z : State) :
  buttonPinNumber z = 3 ->
  Z.abs (trimAdjustment z) < rawSpeed1 z ->
  (trimAdjustment z < 0 ->
   serial (sendCommandFunction z)
   = serial z ++ [to_byte (motorControl1 (clampCommands z) + trimAdjustment z);
                  motorControl2 (clampCommands z)]) /\
  (0 <= trimAdjustment z ->
   serial (sendCommandFunction z)
   = serial z ++ [motorControl1 (clampCommands z);
                  to_byte (motorControl2 (clampCommands z) - trimAdjustment z)]).
Proof.
  destruct z; unfold_model; intros P H; exec; split; intros T;
    rewrite <- ?app_assoc; cbn [app]; try (exfalso; lia);
    repeat match goal with
           | |- context [to_byte ?x] => rewrite (to_byte_small x) by lia
           end;
    reflexivity.
Qed.

Lemma send_reverse (z : State) :
  buttonPinNumber z = 4 ->
  Z.abs (trimAdjustment z) < rawSpeed1 z ->
  (trimAdjustment z < 0 ->
   serial (sendCommandFunction z)
   = serial z ++ [to_byte (motorControl1 (clampCommands z) - trimAdjustment z);
                  motorControl2 (clampCommands z)]) /\
  (0 <= trimAdjustment z ->
   serial (sendCommandFunction z)
   = serial z ++ [motorControl1 (clampCommands z);
                  to_byte (motorControl2 (clampCommands z) + trimAdjustment z)]).
Proof.
  destruct z; unfold_model; intros P H; exec; split; intros T;
    rewrite <- ?app_assoc; cbn [app]; try (exfalso; lia);
    repeat match goal with
           | |- context [to_byte ?x] => rewrite (to_byte_small x) by lia
           end;
    reflexivity.
Qed.

(** The state that the encoder starts from on a pass with [p] the first
    pin read LOW: the trim of this pass, and motor A's raw speed as the
    previous pass derived it. *)
Lemma pressed_pass (i : Inputs) (s : State) (p : Z) :
  firstLow i = Some p ->
  exists z : State,
    serial (loop i s) = serial (sendCommandFunction z) /\
    motorControl1 (loop i s) = motorControl1 (clampCommands z) /\
    motorControl2 (loop i s) = motorControl2 (clampCommands z) /\
    trimInputs z = (rawSpeed1 s, p, trimOf (trimPot i)) /\
    serial z = serial s.
Proof.
  intros F. exists (motionUpdate p (pressedState p i s)).
  destruct (loop_pressed_commands i s p F) as [-> ->].
  destruct (writes_commands_pots (motionUpdate p) (pressedState p i s)
              (motionUpdate_writes p)) as (_ & -> & ->).
  rewrite pressedState_trimInputs.
  destruct (pressedState_fields p i s) as (_ & _ & _ & _ & _ & _ & _ & _ & _
                                           & _ & _ & ->).
  rewrite (loop_pressed i s p F). unfold pressedState.
  generalize (markPressed (set_buttonPinNumber p (polled i s))). intros x.
  destruct (deriveSpeeds_fields (buttonPressedFunction p x))
    as (_ & _ & -> & _).
  repeat split.
Qed.

(** What an idle or latched pass does to the serial port. *)
Lemma released_serial (y : State) :
  buttonPinNumber y = 7 ->
  serial (idleStep y) = serial y \/
  (serial (idleStep y)
   = serial y ++ [motorControl1 (idleStep y); motorControl2 (idleStep y)] /\
   valid_commands (idleStep y)).
Proof.
  intros P. unfold idleStep, bind.
  destruct (buttonPressedIndicator y =? 0); [ right | left; reflexivity ].
  set (z := if atRest y then _ else _).
  assert (Z7 : buttonPinNumber z = 7 /\ serial z = serial y).
  { subst z. destruct (atRest y); [ split; [ exact P | reflexivity ] | ].
    destruct (decelerateFunction_writes y) as (a & b & d & ->).
    split; [ exact P | reflexivity ]. }
  destruct Z7 as [Z7 <-].
  split; [ | apply sendCommandFunction_valid ].
  destruct (sendCommandFunction_commands z) as [-> ->].
  apply send_plain. left. lia.
Qed.

Lemma released_pass_serial (i : Inputs) (s : State) :
  firstLow i = None ->
  serial (loop i s) = serial s \/
  (serial (loop i s)
   = serial s ++ [motorControl1 (loop i s); motorControl2 (loop i s)] /\
   valid_commands (loop i s)).
Proof.
  intros F. rewrite (loop_released i s F).
  destruct (released_fields i s) as (_ & _ & Y3 & _).
  set (y := deriveSpeeds _) in *. rewrite <- Y3.
  apply released_serial. subst y.
  destruct (deriveSpeeds_shape (set_buttonPinNumber 7 (polled i s)))
    as (r1 & r2 & d1 & d2 & ->).
  reflexivity.
Qed.

(** X13.  What a Forward pass sends.  The trim is the one read on this
    pass; the guard compares it with motor A's raw speed as the previous
    pass left it.  At or below the guard the two persisted commands go
    out as they are.  Above it, a negative trim lowers motor A's byte by
    the trim and leaves motor B's alone, a trim of zero or more lowers
    motor B's byte and leaves motor A's alone; the moved byte is stored
    in a byte without a second clamp. *)
Theorem forward_pass_trim (i : Inputs) (s : State) :
  firstLow i = Some 3 ->
  let t := trimOf (trimPot i) in
  let a := motorControl1 (loop i s) in
  let b := motorControl2 (loop i s) in
  (rawSpeed1 s <= Z.abs t -> serial (loop i s) = serial s ++ [a; b]) /\
  (Z.abs t < rawSpeed1 s -> t < 0 ->
   serial (loop i s) = serial s ++ [to_byte (a + t); b]) /\
  (Z.abs t < rawSpeed1 s -> 0 <= t ->
   serial (loop i s) = serial s ++ [a; to_byte (b - t)]).
Proof.
  intros F t a b. subst t a b.
  destruct (pressed_pass i s 3 F) as (z & -> & -> & -> & T & S).
  unfold trimInputs in T. injection T as R P A.
  rewrite <- R, <- A, <- S.
  split; [ intros H; apply send_plain; right; exact H | ].
  split; intros H; apply (send_forward z P H).
Qed.

Lemma forward_pass_trim_witness :
  let s := run (repeat (press 3 1023 512) 5) (setup false) in
  rawSpeed1 s = 10 /\
  serial (loop (press 3 1023 0) s) = serial s ++ [70; 204] /\
  serial (loop (press 3 1023 1023) s) = serial s ++ [76; 198].
Proof.
  intros s.
  split; [ vm_compute; reflexivity | ].
  pose proof (forward_pass_trim (press 3 1023 0) s eq_refl) as H.
  pose proof (forward_pass_trim (press 3 1023 1023) s eq_refl) as K.
  cbv zeta in H, K.
  destruct H as (_ & H & _). destruct K as (_ & _ & K).
  split.
  - rewrite H by (vm_compute; reflexivity). vm_compute. reflexivity.
  - rewrite K by (vm_compute; first [ reflexivity | discriminate ]).
    vm_compute. reflexivity.
Defined.

(** X14.  What a Reverse pass sends.  Same guard as Forward; above it, a
    negative trim raises motor A's byte by the size of the trim and
    leaves motor B's alone, a trim of zero or more raises motor B's byte
    and leaves motor A's alone. *)
Theorem reverse_pass_trim (i : Inputs) (s : State) :
  firstLow i = Some 4 ->
  let t := trimOf (trimPot i) in
  let a := motorControl1 (loop i s) in
  let b := motorControl2 (loop i s) in
  (rawSpeed1 s <= Z.abs t -> serial (loop i s) = serial s ++ [a; b]) /\
  (Z.abs t < rawSpeed1 s -> t < 0 ->
   serial (loop i s) = serial s ++ [to_byte (a - t); b]) /\
  (Z.abs t < rawSpeed1 s -> 0 <= t ->
   serial (loop i s) = serial s ++ [a; to_byte (b + t)]).
Proof.
  intros F t a b. subst t a b.
  destruct (pressed_pass i s 4 F) as (z & -> & -> & -> & T & S).
  unfold trimInputs in T. injection T as R P A.
  rewrite <- R, <- A, <- S.
  split; [ intros H; apply send_plain; right; exact H | ].
  split; intros H; apply (send_reverse z P H).
Qed.

Lemma reverse_pass_trim_witness :
  let s := run (repeat (press 4 1023 512) 5) (setup false) in
  rawSpeed1 s = 10 /\
  serial (loop (press 4 1023 0) s) = serial s ++ [58; 180] /\
  serial (loop (press 4 1023 1023) s) = serial s ++ [52; 186] /\
  serial (loop (press 4 1023 1023) (setup false)) = [62; 190].
Proof.
  intros s.
  split; [ vm_compute; reflexivity | ].
  pose proof (reverse_pass_trim (press 4 1023 0) s eq_refl) as H.
  pose proof (reverse_pass_trim (press 4 1023 1023) s eq_refl) as K.
  pose proof (reverse_pass_trim (press 4 1023 1023) (setup false) eq_refl) as J.
  cbv zeta in H, K, J.
  destruct H as (_ & H & _). destruct K as (_ & _ & K). destruct J as (J & _).
  split; [ | split ].
  - rewrite H by (vm_compute; reflexivity). vm_compute. reflexivity.
  - rewrite K by (vm_compute; first [ reflexivity | discriminate ]).
    vm_compute. reflexivity.
  - rewrite J by (vm_compute; discriminate). vm_compute. reflexivity.
Defined.

(** X15.  Only Forward and Reverse are trimmed.  On any other pass
    (Stop, Left, Right, or no button) the serial port either stays as it
    was, or grows by exactly the two commands that the pass persists,
    motor A's first. *)
Theorem untrimmed_passes_send_commands (i : Inputs) (s : State) :
  firstLow i <> Some 3 ->
  firstLow i <> Some 4 ->
  serial (loop i s) = serial s \/
  serial (loop i s)
  = serial s ++ [motorControl1 (loop i s); motorControl2 (loop i s)].
Proof.
  intros N3 N4. destruct (firstLow i) as [p | ] eqn:F.
  - right.
    destruct (pressed_pass i s p F) as (z & -> & -> & -> & T & S).
    unfold trimInputs in T. injection T as _ P _.
    rewrite <- S. apply send_plain. left.
    split; intros E; [ apply N3 | apply N4 ]; congruence.
  - destruct (released_pass_serial i s F) as [E | [E _]];
      [ left; exact E | right; exact E ].
Qed.

Lemma untrimmed_passes_send_commands_witness :
  let s := run (repeat (press 3 1023 512) 20) (setup false) in
  let i := press 5 1023 0 in
  serial (loop i s) = serial s ++ [104; 236].
Proof.
  intros s i.
  assert (N3 : firstLow i <> Some 3) by (vm_compute; discriminate).
  assert (N4 : firstLow i <> Some 4) by (vm_compute; discriminate).
  destruct (untrimmed_passes_send_commands i s N3 N4) as [E | E].
  - exfalso. apply (f_equal (@length Z)) in E.
    vm_compute in E. discriminate E.
  - rewrite E. vm_compute. reflexivity.
Defined.

(** X16.  With the trim pot at its centre (readings 512 to 596, trim
    zero) every pass that sends anything sends exactly the two commands
    it persists, and they fit the wire ranges [1,127] and [128,255]. *)
Theorem centred_trim_sends_commands (i : Inputs) (s : State) :
  512 <= trimPot i <= 596 ->
  serial (loop i s) = serial s \/
  (serial (loop i s)
   = serial s ++ [motorControl1 (loop i s); motorControl2 (loop i s)] /\
   wire1 (motorControl1 (loop i s)) /\ wire2 (motorControl2 (loop i s))).
Proof.
  intros C. destruct (firstLow i) as [p | ] eqn:F.
  - right. split; [ | apply (loop_pressed_transmitted i s p F) ].
    destruct (pressed_pass i s p F) as (z & -> & -> & -> & T & S).
    unfold trimInputs in T. injection T as _ _ A.
    rewrite (trimOf_centre _ C) in A.
    rewrite <- S. apply send_zero_trim, A.
  - destruct (released_pass_serial i s F) as [E | [E V]];
      [ left; exact E | right; exact (conj E V) ].
Qed.

Lemma centred_trim_sends_commands_witness :
  let s := run (repeat (press 4 1023 550) 32) (setup false) in
  let i := press 3 1023 550 in
  serial (loop i s) = serial s ++ [1; 131].
Proof.
  intros s i.
  assert (C : 512 <= trimPot i <= 596) by (cbn; lia).
  destruct (centred_trim_sends_commands i s C) as [E | [E _]].
  - exfalso. apply (f_equal (@length Z)) in E.
    vm_compute in E. discriminate E.
  - rewrite E. vm_compute. reflexivity.
Defined.

(** ** Raw speeds *)

Lemma deriveSpeeds_raw (t : State) :
  valid_commands t ->
  rawSpeed1 (deriveSpeeds t) = Z.abs (motorControl1 t - deadStop1) /\
  rawSpeed2 (deriveSpeeds t) = Z.abs (motorControl2 t - deadStop2).
Proof.
  unfold valid_commands.
  destruct t; unfold_model; unfold to_byte; intros V; exec;
    rewrite ?Z.mod_small by lia; lia.
Qed.

Lemma idleStep_raw (y : State) :
  rawSpeed1 (idleStep y) = rawSpeed1 y /\ rawSpeed2 (idleStep y) = rawSpeed2 y.
Proof.
  unfold idleStep, bind.
  destruct (buttonPressedIndicator y =? 0); [ | split; reflexivity ].
  set (z := if atRest y then _ else _).
  assert (R : rawSpeed1 z = rawSpeed1 y /\ rawSpeed2 z = rawSpeed2 y).
  { subst z. destruct (atRest y); [ split; reflexivity | ].
    destruct (decelerateFunction_writes y) as (a & b & d & ->).
    split; reflexivity. }
  destruct R as [<- <-].
  destruct (sendCommandFunction_shape z) as (a & b & m1 & m2 & -> & _).
  split; reflexivity.
Qed.

(** X17.  The raw speeds are each command's distance from its dead
    stop, taken after the buttons are served and before the idle branch
    runs.  After a pass with a button held they are the distances of
    the commands that the pass persists; after a pass with no button
    held they are the distances of the commands the pass started from,
    one deceleration step behind the commands it persists. *)
Theorem raw_speeds_follow_commands (i : Inputs) (s : State) :
  valid_commands s ->
  (anyLow i = true ->
   rawSpeed1 (loop i s) = Z.abs (motorControl1 (loop i s) - deadStop1) /\
   rawSpeed2 (loop i s) = Z.abs (motorControl2 (loop i s) - deadStop2)) /\
  (anyLow i = false ->
   rawSpeed1 (loop i s) = Z.abs (motorControl1 s - deadStop1) /\
   rawSpeed2 (loop i s) = Z.abs (motorControl2 s - deadStop2)).
Proof.
  intros V. split; intros L.
  - destruct (proj2 (firstLow_anyLow i) L) as (p & F & _).
    rewrite (loop_pressed i s p F).
    generalize (markPressed (set_buttonPinNumber p (polled i s))). intros x.
    destruct (deriveSpeeds_fields (buttonPressedFunction p x))
      as (-> & -> & _).
    apply deriveSpeeds_raw.
    apply (buttonPressedFunction_transmitted p x).
  - rewrite (loop_released i s (proj1 (firstLow_anyLow i) L)).
    destruct (released_fields i s) as (Y1 & Y2 & _).
    destruct (idleStep_raw (deriveSpeeds (set_buttonPinNumber 7 (polled i s))))
      as [-> ->].
    rewrite <- Y1, <- Y2.
    destruct (deriveSpeeds_fields (set_buttonPinNumber 7 (polled i s)))
      as (E1 & E2 & _).
    rewrite E1, E2. apply deriveSpeeds_raw.
    unfold valid_commands. rewrite <- E1, <- E2, Y1, Y2. exact V.
Qed.

Lemma raw_speeds_follow_commands_witness :
  let s := run (repeat (press 3 1023 512) 5) (setup false) in
  motorControl1 s = 74 /\
  motorControl2 (loop (press 6 1023 512) s) = 200 /\
  rawSpeed2 (loop (press 6 1023 512) s) = 8 /\
  motorControl1 (loop (press 0 1023 512) s) = 70 /\
  rawSpeed1 (loop (press 0 1023 512) s) = 10.
Proof.
  intros s.
  assert (V : valid_commands s)
    by (unfold valid_commands; vm_compute; repeat split; discriminate).
  destruct (raw_speeds_follow_commands (press 6 1023 512) s V) as [P _].
  destruct (raw_speeds_follow_commands (press 0 1023 512) s V) as [_ Q].
  destruct (P eq_refl) as [_ P2]. destruct (Q eq_refl) as [Q1 _].
  split; [ vm_compute; reflexivity | ].
  split; [ vm_compute; reflexivity | ].
  split; [ rewrite P2; vm_compute; reflexivity | ].
  split; [ vm_compute; reflexivity | ].
  rewrite Q1. vm_compute. reflexivity.
Defined.

(** ** Turns *)

Lemma right_step (s : State) :
  valid_commands s ->
  deadStop1 < maxFwdSpeed1 s ->
  motorControl1 s <= motorControl1 (rightButtonPressed s)
    <= motorControl1 s + 2 * accelFactor /\
  motorControl2 s - 2 * accelFactor <= motorControl2 (rightButtonPressed s)
    <= motorControl2 s /\
  motorControl1 (rightButtonPressed s)
    <= Z.max (motorControl1 s) (maxFwdSpeed1 s + 1).
Proof.
  unfold valid_commands.
  destruct s; unfold_model; intros; exec; lia.
Qed.

Lemma left_step (s : State) :
  valid_commands s ->
  maxRevSpeed1 s <= motorControl1 s ->
  motorControl2 s <= maxFwdSpeed2 s ->
  maxRevSpeed1 s <= motorControl1 (leftButtonPressed s) <= motorControl1 s /\
  (motorControl2 s <= motorControl2 (leftButtonPressed s) <= maxFwdSpeed2 s \/
   motorControl2 (leftButtonPressed s) = maxRevSpeed2 s) /\
  (rawSpeed1 s <= rawSpeed2 s ->
   motorControl2 s <= motorControl2 (leftButtonPressed s)).
Proof.
  unfold valid_commands.
  destruct s; unfold_model; intros; exec; lia.
Qed.

(** X18.  A Right pass turns right and never the other way: from any
    commands that fit the wire protocol, motor A's command does not
    decrease and motor B's does not increase, and each moves by at most
    two accel increments.  Motor A is not clamped to its ceiling: it
    stops stepping once it has reached it, so it can stand one count
    above the ceiling of the throttle read on this pass, and no
    more unless it already was. *)
Theorem right_pass_turns_right (i : Inputs) (s : State) :
  firstLow i = Some 6 ->
  0 <= throttlePot i <= 1023 ->
  valid_commands s ->
  motorControl1 s <= motorControl1 (loop i s)
    <= motorControl1 s + 2 * accelFactor /\
  motorControl2 s - 2 * accelFactor <= motorControl2 (loop i s)
    <= motorControl2 s /\
  motorControl1 (loop i s)
    <= Z.max (motorControl1 s) (fwdCeiling1 (throttlePot i) + 1).
Proof.
  intros F P V.
  destruct (loop_pressed_commands i s 6 F) as [-> ->].
  destruct (pressedState_fields 6 i s)
    as (X1 & X2 & _ & _ & _ & _ & X7 & _).
  generalize dependent (pressedState 6 i s). intros x X1 X2 X7.
  assert (Vx : valid_commands x)
    by (unfold valid_commands; rewrite X1, X2; exact V).
  rewrite (proj2 (proj2 (proj2 (proj2 (motionUpdate_pin x))))),
    (repairZero_id x Vx).
  destruct (governor_values _ P) as (_ & G1 & _).
  rewrite <- X1, <- X2, <- X7 in *.
  assert (C : deadStop1 < maxFwdSpeed1 x) by (unfold deadStop1; lia).
  destruct (right_step x Vx C) as (S1 & S2 & S3).
  destruct (clampCommands_fields (rightButtonPressed x)) as [-> ->].
  unfold valid_commands, accelFactor in *. lia.
Qed.

Lemma right_pass_turns_right_witness :
  let i := press 6 33 512 in
  let s := loop i (setup false) in
  motorControl1 s = 66 /\ motorControl2 s = 190 /\
  fwdCeiling1 33 = 67 /\
  motorControl1 s <= motorControl1 (loop i s) <= 68 /\
  motorControl2 (loop i s) <= motorControl2 s.
Proof.
  intros i s.
  assert (F : firstLow i = Some 6) by reflexivity.
  assert (P : 0 <= throttlePot i <= 1023) by (cbn; lia).
  assert (V : valid_commands s)
    by (unfold valid_commands; vm_compute; repeat split; discriminate).
  destruct (right_pass_turns_right i s F P V) as ((A1 & _) & (_ & B2) & C).
  split; [ vm_compute; reflexivity | ].
  split; [ vm_compute; reflexivity | ].
  split; [ vm_compute; reflexivity | ].
  split; [ split; [ exact A1 | ] | exact B2 ].
  eapply Z.le_trans; [ exact C | ]. vm_compute. discriminate.
Defined.

(** X19.  A Left pass, from commands that fit the wire protocol with
    motor A on or above its floor and motor B on or below its ceiling
    for the throttle read on this pass: motor A's command does not
    increase and stays on or above its floor.  Motor B's command either
    does not decrease and stays on or below its ceiling, or it ends on
    motor B's reverse floor; when motor A's raw speed, as the previous
    pass left it, does not exceed motor B's, motor B's command never
    decreases. *)
Theorem left_pass_turns_left (i : Inputs) (s : State) :
  firstLow i = Some 5 ->
  0 <= throttlePot i <= 1023 ->
  valid_commands s ->
  revFloor1 (throttlePot i) <= motorControl1 s ->
  motorControl2 s <= fwdCeiling2 (throttlePot i) ->
  revFloor1 (throttlePot i) <= motorControl1 (loop i s) <= motorControl1 s /\
  (motorControl2 s <= motorControl2 (loop i s) <= fwdCeiling2 (throttlePot i) \/
   motorControl2 (loop i s) = revFloor2 (throttlePot i)) /\
  (rawSpeed1 s <= rawSpeed2 s ->
   motorControl2 s <= motorControl2 (loop i s)).
Proof.
  intros F P V C1 C2.
  destruct (loop_pressed_commands i s 5 F) as [-> ->].
  destruct (pressedState_fields 5 i s)
    as (X1 & X2 & X3 & X4 & _ & _ & _ & X8 & X9 & X10 & _).
  generalize dependent (pressedState 5 i s). intros x X1 X2 X3 X4 X8 X9 X10.
  assert (Vx : valid_commands x)
    by (unfold valid_commands; rewrite X1, X2; exact V).
  rewrite (proj1 (proj2 (proj2 (proj2 (motionUpdate_pin x))))),
    (repairZero_id x Vx).
  destruct (governor_values _ P) as (G1 & _ & G3 & G4 & _).
  rewrite <- X1, <- X2, <- X3, <- X4, <- X8, <- X9, <- X10 in *.
  destruct (left_step x Vx C1 C2) as (S1 & S2 & S3).
  destruct (clampCommands_fields (leftButtonPressed x)) as [-> ->].
  unfold valid_commands in *. lia.
Qed.

Lemma left_pass_turns_left_witness :
  let i := press 5 1023 512 in
  let s := run (repeat (press 3 1023 512) 5) (setup false) in
  motorControl1 s = 74 /\ motorControl2 s = 202 /\
  motorControl1 (loop i s) <= 74 /\
  202 <= motorControl2 (loop i s).
Proof.
  intros i s.
  assert (F : firstLow i = Some 5) by reflexivity.
  assert (P : 0 <= throttlePot i <= 1023) by (cbn; lia).
  assert (V : valid_commands s)
    by (unfold valid_commands; vm_compute; repeat split; discriminate).
  assert (C1 : revFloor1 (throttlePot i) <= motorControl1 s)
    by (vm_compute; discriminate).
  assert (C2 : motorControl2 s <= fwdCeiling2 (throttlePot i))
    by (vm_compute; discriminate).
  assert (M1 : motorControl1 s = 74) by (vm_compute; reflexivity).
  assert (M2 : motorControl2 s = 202) by (vm_compute; reflexivity).
  destruct (left_pass_turns_left i s F P V C1 C2) as ((_ & A) & _ & B).
  split; [ exact M1 | split; [ exact M2 | ] ].
  split; [ rewrite <- M1; exact A | ].
  rewrite <- M2. apply B. vm_compute. discriminate.
Defined.

(** ** Reverse out of a forward run *)

Lemma reverse_out_of_forward_step (s : State) :
  maxRevSpeed1 s < deadStop1 ->
  maxRevSpeed2 s < deadStop2 ->
  maxFwdSpeed2 s = maxFwdSpeed1 s + 128 ->
  motorControl2 s = motorControl1 s + 128 ->
  deadStop1 + decelFactor < motorControl1 s <= 127 ->
  motorControl1 (accelerateReverse s) = motorControl1 s - accelFactor /\
  motorControl2 (accelerateReverse s) = motorControl2 s - decelFactor.
Proof. destruct s; unfold_model; intros; exec; lia. Qed.

(** X20.  Reverse out of a straight forward run.  From commands in lock
    step (motor B's 128 above motor A's) with motor A more than a decel
    increment above its dead stop, a Reverse pass lowers motor B's
    command by the decel increment and motor A's by the accel increment
    only, so the two commands leave lock step by two counts.  The test
    that picks motor A's increment (line 764) compares its command with
    [deadStop2], motor B's dead stop, which no command of motor A
    exceeds; motor B's test (line 783) compares with its own. *)
Theorem reverse_out_of_forward_leaves_lock_step (i : Inputs) (s : State) :
  firstLow i = Some 4 ->
  0 <= throttlePot i <= 1023 ->
  valid_commands s ->
  motorControl2 s = motorControl1 s + 128 ->
  deadStop1 + decelFactor < motorControl1 s ->
  motorControl1 (loop i s) = motorControl1 s - accelFactor /\
  motorControl2 (loop i s) = motorControl2 s - decelFactor.
Proof.
  intros F P V K C.
  destruct (loop_pressed_commands i s 4 F) as [-> ->].
  destruct (pressedState_fields 4 i s)
    as (X1 & X2 & _ & _ & _ & _ & X7 & X8 & X9 & X10 & _).
  generalize dependent (pressedState 4 i s). intros x X1 X2 X7 X8 X9 X10.
  assert (Vx : valid_commands x)
    by (unfold valid_commands; rewrite X1, X2; exact V).
  rewrite (proj1 (proj2 (proj2 (motionUpdate_pin x)))), (repairZero_id x Vx).
  destruct (governor_values _ P) as (G1 & G2 & G3 & G4 & G5 & G6).
  rewrite <- X1, <- X2, <- X7, <- X8, <- X9, <- X10 in *.
  unfold valid_commands in V.
  destruct (reverse_out_of_forward_step x) as (S1 & S2);
    try (unfold deadStop1, deadStop2, decelFactor in *; lia).
  rewrite clampCommands_id
    by (unfold valid_commands, deadStop1, accelFactor, decelFactor in *; lia).
  exact (conj S1 S2).
Qed.

Lemma reverse_out_of_forward_leaves_lock_step_witness :
  let s := run (repeat (press 3 578 512) 3) (setup false) in
  let i := press 4 578 512 in
  motorControl1 s = 70 /\ motorControl2 s = 198 /\
  motorControl1 (loop i s) = 68 /\ motorControl2 (loop i s) = 194.
Proof.
  intros s i.
  assert (F : firstLow i = Some 4) by reflexivity.
  assert (P : 0 <= throttlePot i <= 1023) by (cbn; lia).
  assert (V : valid_commands s)
    by (unfold valid_commands; vm_compute; repeat split; discriminate).
  assert (M1 : motorControl1 s = 70) by (vm_compute; reflexivity).
  assert (M2 : motorControl2 s = 198) by (vm_compute; reflexivity).
  assert (K : motorControl2 s = motorControl1 s + 128)
    by (rewrite M1, M2; reflexivity).
  assert (C : deadStop1 + decelFactor < motorControl1 s)
    by (rewrite M1; reflexivity).
  destruct (reverse_out_of_forward_leaves_lock_step i s F P V K C) as [A B].
  split; [ exact M1 | split; [ exact M2 | ] ].
  split; [ rewrite A, M1; reflexivity | rewrite B, M2; reflexivity ].
Defined.
